(** * knew6: the simulation engine of the platform-jumping game

    A shallow embedding of [src/constants.ts], [src/types.ts] and the engine
    part of [src/components/GameCanvas.tsx] ([getCurrentTier], [resetGame],
    [activatePowerUp], the power-up expiry callbacks, [updatePhysics] and the
    fixed-timestep driver [animate]).

    Conventions of the embedding.
    - A JavaScript [number] is a rational ([Q]); numeric equality is [==].
      The score only ever receives [Math.floor] results and is an integer ([Z]).
    - The refs of the component ([playerRef], [platformsRef], [scoreRef],
      the three timer refs, the loop timing refs) are the fields of one
      [Engine] record that every operation takes and returns.
    - [window.setTimeout] is a pending deadline stored next to the state; the
      host fires it with [fireMultiplier], [fireGiant], [fireBooster].
    - Calls to the external sinks ([onScoreUpdate], [onGameOver],
      [playSound]) are appended to a log, most recent first.
    - Every [Math.random()] call site of the generator is one field of
      [Draws]; [performance.now()] is an input.
    - Particles and ripples are written by the engine and read by [draw]
      only; they are left out. *)

From Stdlib Require Import QArith Qround Qabs ZArith List Bool String Lia Lqa
  Sorted.
Import ListNotations.
Open Scope Q_scope.

(** ** src/constants.ts *)

Definition CANVAS_WIDTH : Q := 400.
Definition CANVAS_HEIGHT : Q := 600.
Definition FRICTION : Q := 0.8.
Definition PLAYER_SIZE : Q := 40.
Definition PLATFORM_WIDTH : Q := 105.
Definition PLATFORM_HEIGHT : Q := 15.
Definition POWERUP_SIZE : Q := 20.
Definition POWERUP_DURATION : Q := 10000.
Definition POWERUP_SPAWN_CHANCE : Q := 0.1.

Record Tier := mkTier {
  tmin : Z;
  color : string;
  light : string;
  multiplier : Q
}.

Definition SCORE_TIERS : list Tier :=
  [ mkTier 0 "#94A3B8" "#CBD5E1" 1;
    mkTier 1000 "#10B981" "#6EE7B7" 1.5;
    mkTier 2500 "#3B82F6" "#93C5FD" 2;
    mkTier 5000 "#8B5CF6" "#C4B5FD" 3;
    mkTier 8000 "#F43F5E" "#FDA4AF" 5 ].

(** ** src/types.ts *)

Inductive GameState := START | PLAYING | GAME_OVER.

Inductive CharacterType := YELLOW | BLUE.

Inductive PowerUpType := SHIELD | SCORE_MULTIPLIER | GIANT | BOOSTER.

Record CharacterSpec := mkSpec {
  jumpStrength : Q;
  specGravity : Q;
  specMoveSpeed : Q
}.

Definition CHARACTER_SPECS (c : CharacterType) : CharacterSpec :=
  match c with
  | YELLOW => mkSpec (-15) 0.5 1.2
  | BLUE => mkSpec (-13.5) 0.38 0.9
  end.

Record Player := mkPlayer {
  x : Q;
  y : Q;
  vx : Q;
  vy : Q;
  width : Q;
  height : Q;
  type : CharacterType;
  isJumping : bool;
  baseJumpStrength : Q;
  gravity : Q;
  moveSpeed : Q;
  shieldCount : Z;
  scoreMultiplierActive : bool;
  scoreMultiplierEndTime : Q;
  isGiant : bool;
  giantEndTime : Q;
  isBoosting : bool;
  boosterEndTime : Q
}.

(** A platform; [pMoveSpeed], [initialX] and [moveRange] are the optional
    fields of the interface ([None] is [undefined]). *)
Record Platform := mkPlatform {
  px : Q;
  py : Q;
  pwidth : Q;
  pheight : Q;
  pid : Q;
  isMoving : bool;
  pMoveSpeed : option Q;
  initialX : option Q;
  moveRange : option Q;
  powerUp : option PowerUpType;
  pcolor : string;
  plightColor : string
}.

(** ** Numbers *)

Definition Qltb (a b : Q) : bool := negb (Qle_bool b a).
Definition Qgtb (a b : Q) : bool := Qltb b a.
Definition Qgeb (a b : Q) : bool := Qle_bool b a.
(** [Math.max] and [Math.min] of two numbers. *)
Definition Qmax (a b : Q) : Q := if Qle_bool a b then b else a.
Definition Qmin (a b : Q) : Q := if Qle_bool a b then a else b.
(** Truthiness of a number: everything but zero. *)
Definition truthy (a : Q) : bool := negb (Qeq_bool a 0).
(** [Math.hypot(dx, dy) < r]: the distance is not negative, so the test
    holds exactly when [r] is positive and the squares compare. *)
Definition hypotLt (dx dy r : Q) : bool :=
  Qltb 0 r && Qltb (dx * dx + dy * dy) (r * r).

(** ** getCurrentTier *)

Definition tierAt (i : nat) : Tier :=
  nth i SCORE_TIERS (mkTier 0 EmptyString EmptyString 1).

(** The loop [for (i = length - 1; i >= 0; i--)]; [n] is [i + 1]. *)
Fixpoint scanTiers (currentScore : Z) (n : nat) : Tier :=
  match n with
  | O => tierAt 0
  | S i => if (currentScore >=? tmin (tierAt i))%Z then tierAt i
           else scanTiers currentScore i
  end.

Definition getCurrentTier (currentScore : Z) : Tier :=
  scanTiers currentScore (List.length SCORE_TIERS).

(** ** Field updates of the player and of a platform *)

Definition set_x (v : Q) (p : Player) : Player :=
  mkPlayer v (y p) (vx p) (vy p) (width p) (height p) (type p) (isJumping p)
    (baseJumpStrength p) (gravity p) (moveSpeed p) (shieldCount p)
    (scoreMultiplierActive p) (scoreMultiplierEndTime p) (isGiant p)
    (giantEndTime p) (isBoosting p) (boosterEndTime p).

Definition set_y (v : Q) (p : Player) : Player :=
  mkPlayer (x p) v (vx p) (vy p) (width p) (height p) (type p) (isJumping p)
    (baseJumpStrength p) (gravity p) (moveSpeed p) (shieldCount p)
    (scoreMultiplierActive p) (scoreMultiplierEndTime p) (isGiant p)
    (giantEndTime p) (isBoosting p) (boosterEndTime p).

Definition set_vx (v : Q) (p : Player) : Player :=
  mkPlayer (x p) (y p) v (vy p) (width p) (height p) (type p) (isJumping p)
    (baseJumpStrength p) (gravity p) (moveSpeed p) (shieldCount p)
    (scoreMultiplierActive p) (scoreMultiplierEndTime p) (isGiant p)
    (giantEndTime p) (isBoosting p) (boosterEndTime p).

Definition set_vy (v : Q) (p : Player) : Player :=
  mkPlayer (x p) (y p) (vx p) v (width p) (height p) (type p) (isJumping p)
    (baseJumpStrength p) (gravity p) (moveSpeed p) (shieldCount p)
    (scoreMultiplierActive p) (scoreMultiplierEndTime p) (isGiant p)
    (giantEndTime p) (isBoosting p) (boosterEndTime p).

Definition set_width (v : Q) (p : Player) : Player :=
  mkPlayer (x p) (y p) (vx p) (vy p) v (height p) (type p) (isJumping p)
    (baseJumpStrength p) (gravity p) (moveSpeed p) (shieldCount p)
    (scoreMultiplierActive p) (scoreMultiplierEndTime p) (isGiant p)
    (giantEndTime p) (isBoosting p) (boosterEndTime p).

Definition set_height (v : Q) (p : Player) : Player :=
  mkPlayer (x p) (y p) (vx p) (vy p) (width p) v (type p) (isJumping p)
    (baseJumpStrength p) (gravity p) (moveSpeed p) (shieldCount p)
    (scoreMultiplierActive p) (scoreMultiplierEndTime p) (isGiant p)
    (giantEndTime p) (isBoosting p) (boosterEndTime p).

Definition set_type (v : CharacterType) (p : Player) : Player :=
  mkPlayer (x p) (y p) (vx p) (vy p) (width p) (height p) v (isJumping p)
    (baseJumpStrength p) (gravity p) (moveSpeed p) (shieldCount p)
    (scoreMultiplierActive p) (scoreMultiplierEndTime p) (isGiant p)
    (giantEndTime p) (isBoosting p) (boosterEndTime p).

Definition set_shieldCount (v : Z) (p : Player) : Player :=
  mkPlayer (x p) (y p) (vx p) (vy p) (width p) (height p) (type p) (isJumping p)
    (baseJumpStrength p) (gravity p) (moveSpeed p) v
    (scoreMultiplierActive p) (scoreMultiplierEndTime p) (isGiant p)
    (giantEndTime p) (isBoosting p) (boosterEndTime p).

Definition set_scoreMultiplierActive (v : bool) (p : Player) : Player :=
  mkPlayer (x p) (y p) (vx p) (vy p) (width p) (height p) (type p) (isJumping p)
    (baseJumpStrength p) (gravity p) (moveSpeed p) (shieldCount p)
    v (scoreMultiplierEndTime p) (isGiant p)
    (giantEndTime p) (isBoosting p) (boosterEndTime p).

Definition set_scoreMultiplierEndTime (v : Q) (p : Player) : Player :=
  mkPlayer (x p) (y p) (vx p) (vy p) (width p) (height p) (type p) (isJumping p)
    (baseJumpStrength p) (gravity p) (moveSpeed p) (shieldCount p)
    (scoreMultiplierActive p) v (isGiant p)
    (giantEndTime p) (isBoosting p) (boosterEndTime p).

Definition set_isGiant (v : bool) (p : Player) : Player :=
  mkPlayer (x p) (y p) (vx p) (vy p) (width p) (height p) (type p) (isJumping p)
    (baseJumpStrength p) (gravity p) (moveSpeed p) (shieldCount p)
    (scoreMultiplierActive p) (scoreMultiplierEndTime p) v
    (giantEndTime p) (isBoosting p) (boosterEndTime p).

Definition set_giantEndTime (v : Q) (p : Player) : Player :=
  mkPlayer (x p) (y p) (vx p) (vy p) (width p) (height p) (type p) (isJumping p)
    (baseJumpStrength p) (gravity p) (moveSpeed p) (shieldCount p)
    (scoreMultiplierActive p) (scoreMultiplierEndTime p) (isGiant p)
    v (isBoosting p) (boosterEndTime p).

Definition set_isBoosting (v : bool) (p : Player) : Player :=
  mkPlayer (x p) (y p) (vx p) (vy p) (width p) (height p) (type p) (isJumping p)
    (baseJumpStrength p) (gravity p) (moveSpeed p) (shieldCount p)
    (scoreMultiplierActive p) (scoreMultiplierEndTime p) (isGiant p)
    (giantEndTime p) v (boosterEndTime p).

Definition set_boosterEndTime (v : Q) (p : Player) : Player :=
  mkPlayer (x p) (y p) (vx p) (vy p) (width p) (height p) (type p) (isJumping p)
    (baseJumpStrength p) (gravity p) (moveSpeed p) (shieldCount p)
    (scoreMultiplierActive p) (scoreMultiplierEndTime p) (isGiant p)
    (giantEndTime p) (isBoosting p) v.

Definition set_px (v : Q) (p : Platform) : Platform :=
  mkPlatform v (py p) (pwidth p) (pheight p) (pid p) (isMoving p)
    (pMoveSpeed p) (initialX p) (moveRange p) (powerUp p) (pcolor p)
    (plightColor p).

Definition set_py (v : Q) (p : Platform) : Platform :=
  mkPlatform (px p) v (pwidth p) (pheight p) (pid p) (isMoving p)
    (pMoveSpeed p) (initialX p) (moveRange p) (powerUp p) (pcolor p)
    (plightColor p).

Definition set_pMoveSpeed (v : option Q) (p : Platform) : Platform :=
  mkPlatform (px p) (py p) (pwidth p) (pheight p) (pid p) (isMoving p)
    v (initialX p) (moveRange p) (powerUp p) (pcolor p) (plightColor p).

Definition set_powerUp (v : option PowerUpType) (p : Platform) : Platform :=
  mkPlatform (px p) (py p) (pwidth p) (pheight p) (pid p) (isMoving p)
    (pMoveSpeed p) (initialX p) (moveRange p) v (pcolor p) (plightColor p).

(** ** The engine state *)

Inductive Sfx :=
  | SfxJump | SfxDie | SfxShield | SfxCollectShield | SfxCollectStar
  | SfxCollectMushroom | SfxCollectRocket | SfxStart.

(** A call of the engine to one of its external sinks. *)
Inductive Call :=
  | ScoreUpdate (s : Z)
  | GameOver
  | PlaySound (s : Sfx).

Record Engine := mkEngine {
  player : Player;                (* playerRef *)
  platforms : list Platform;      (* platformsRef *)
  score : Z;                      (* scoreRef *)
  multiplierTimer : option Q;     (* multiplierTimerRef: deadline if pending *)
  giantTimer : option Q;          (* giantTimerRef *)
  boosterTimer : option Q;        (* boosterTimerRef *)
  lastTime : Q;                   (* lastTimeRef *)
  accumulator : Q;                (* accumulatorRef *)
  readyEndTime : Q;               (* readyEndTimeRef *)
  lastReadyCount : Z;             (* lastReadyCountRef *)
  frameCount : nat;               (* frameCountRef: physics steps run so far *)
  calls : list Call               (* sink calls, most recent first *)
}.

Definition set_player (v : Player) (e : Engine) : Engine :=
  mkEngine v (platforms e) (score e) (multiplierTimer e) (giantTimer e)
    (boosterTimer e) (lastTime e) (accumulator e) (readyEndTime e)
    (lastReadyCount e) (frameCount e) (calls e).

Definition set_platforms (v : list Platform) (e : Engine) : Engine :=
  mkEngine (player e) v (score e) (multiplierTimer e) (giantTimer e)
    (boosterTimer e) (lastTime e) (accumulator e) (readyEndTime e)
    (lastReadyCount e) (frameCount e) (calls e).

Definition set_score (v : Z) (e : Engine) : Engine :=
  mkEngine (player e) (platforms e) v (multiplierTimer e) (giantTimer e)
    (boosterTimer e) (lastTime e) (accumulator e) (readyEndTime e)
    (lastReadyCount e) (frameCount e) (calls e).

Definition set_multiplierTimer (v : option Q) (e : Engine) : Engine :=
  mkEngine (player e) (platforms e) (score e) v (giantTimer e)
    (boosterTimer e) (lastTime e) (accumulator e) (readyEndTime e)
    (lastReadyCount e) (frameCount e) (calls e).

Definition set_giantTimer (v : option Q) (e : Engine) : Engine :=
  mkEngine (player e) (platforms e) (score e) (multiplierTimer e) v
    (boosterTimer e) (lastTime e) (accumulator e) (readyEndTime e)
    (lastReadyCount e) (frameCount e) (calls e).

Definition set_boosterTimer (v : option Q) (e : Engine) : Engine :=
  mkEngine (player e) (platforms e) (score e) (multiplierTimer e)
    (giantTimer e) v (lastTime e) (accumulator e) (readyEndTime e)
    (lastReadyCount e) (frameCount e) (calls e).

Definition set_lastTime (v : Q) (e : Engine) : Engine :=
  mkEngine (player e) (platforms e) (score e) (multiplierTimer e)
    (giantTimer e) (boosterTimer e) v (accumulator e) (readyEndTime e)
    (lastReadyCount e) (frameCount e) (calls e).

Definition set_accumulator (v : Q) (e : Engine) : Engine :=
  mkEngine (player e) (platforms e) (score e) (multiplierTimer e)
    (giantTimer e) (boosterTimer e) (lastTime e) v (readyEndTime e)
    (lastReadyCount e) (frameCount e) (calls e).

Definition set_lastReadyCount (v : Z) (e : Engine) : Engine :=
  mkEngine (player e) (platforms e) (score e) (multiplierTimer e)
    (giantTimer e) (boosterTimer e) (lastTime e) (accumulator e)
    (readyEndTime e) v (frameCount e) (calls e).

Definition set_frameCount (v : nat) (e : Engine) : Engine :=
  mkEngine (player e) (platforms e) (score e) (multiplierTimer e)
    (giantTimer e) (boosterTimer e) (lastTime e) (accumulator e)
    (readyEndTime e) (lastReadyCount e) v (calls e).

Definition emit (c : Call) (e : Engine) : Engine :=
  mkEngine (player e) (platforms e) (score e) (multiplierTimer e)
    (giantTimer e) (boosterTimer e) (lastTime e) (accumulator e)
    (readyEndTime e) (lastReadyCount e) (frameCount e) (c :: calls e).

(** How often the round-end sink [onGameOver] was called. *)
Definition isGameOver (c : Call) : bool :=
  match c with GameOver => true | _ => false end.

Definition gameOverCalls (e : Engine) : nat :=
  List.length (filter isGameOver (calls e)).

(** How often a landing bounce happened ([playSound('jump')]). *)
Definition isJump (c : Call) : bool :=
  match c with PlaySound SfxJump => true | _ => false end.

Definition bounces (e : Engine) : nat :=
  List.length (filter isJump (calls e)).

(** ** resetGame *)

Definition staticPlatform (x0 y0 id0 : Q) : Platform :=
  mkPlatform x0 y0 PLATFORM_WIDTH PLATFORM_HEIGHT id0 false None None None
    None (color (tierAt 0)) (light (tierAt 0)).

Definition initialPlatforms : list Platform :=
  [ staticPlatform (CANVAS_WIDTH / 2 - PLATFORM_WIDTH / 2) (CANVAS_HEIGHT - 50) 0;
    staticPlatform (CANVAS_WIDTH / 2 - PLATFORM_WIDTH / 2) (CANVAS_HEIGHT - 170) 1;
    staticPlatform (CANVAS_WIDTH / 2 - PLATFORM_WIDTH / 2 - 60) (CANVAS_HEIGHT - 290) 2;
    staticPlatform (CANVAS_WIDTH / 2 - PLATFORM_WIDTH / 2 + 60) (CANVAS_HEIGHT - 410) 3;
    staticPlatform (CANVAS_WIDTH / 2 - PLATFORM_WIDTH / 2) (CANVAS_HEIGHT - 530) 4 ].

Definition initialPlayer (characterType : CharacterType) : Player :=
  let stats := CHARACTER_SPECS characterType in
  mkPlayer (CANVAS_WIDTH / 2 - PLAYER_SIZE / 2) (CANVAS_HEIGHT - 150) 0 0
    PLAYER_SIZE PLAYER_SIZE characterType false
    (jumpStrength stats) (specGravity stats) (specMoveSpeed stats)
    0%Z false 0 false 0 false 0.

(** [resetGame]; [now1] and [now2] are its two reads of the clock.  The
    three [clearTimeout] calls leave no timer pending. *)
Definition resetGame (characterType : CharacterType) (now1 now2 : Q)
    (e : Engine) : Engine :=
  mkEngine (initialPlayer characterType) initialPlatforms 0%Z
    None None None now2 0 (now1 + 1500) 1%Z (frameCount e)
    (ScoreUpdate 0 :: calls e).

(** The component as mounted, before the first [resetGame]. *)
Definition mountedPlayer (characterType : CharacterType) : Player :=
  mkPlayer (CANVAS_WIDTH / 2 - PLAYER_SIZE / 2) (CANVAS_HEIGHT - 150) 0 0
    PLAYER_SIZE PLAYER_SIZE characterType false (-14) 0.5 1
    0%Z false 0 false 0 false 0.

Definition mounted (characterType : CharacterType) : Engine :=
  mkEngine (mountedPlayer characterType) [] 0%Z None None None 0 0 0 0%Z O [].

(** ** activatePowerUp and the expiry callbacks *)

Definition activatePowerUp (t : PowerUpType) (now : Q) (e : Engine) : Engine :=
  let p := player e in
  match t with
  | SHIELD =>
      set_player (set_shieldCount 1 p) (emit (PlaySound SfxCollectShield) e)
  | SCORE_MULTIPLIER =>
      let duration :=
        if scoreMultiplierActive p && truthy (scoreMultiplierEndTime p)
           && Qgtb (scoreMultiplierEndTime p) now
        then POWERUP_DURATION + (scoreMultiplierEndTime p - now)
        else POWERUP_DURATION in
      set_multiplierTimer (Some (now + duration))
        (set_player
           (set_scoreMultiplierEndTime (now + duration)
              (set_scoreMultiplierActive true p))
           (emit (PlaySound SfxCollectStar) e))
  | GIANT =>
      let duration :=
        if isGiant p && truthy (giantEndTime p) && Qgtb (giantEndTime p) now
        then 5000 + (giantEndTime p - now)
        else 5000 in
      let p1 :=
        if negb (isGiant p) then
          let oldW := width p in
          let oldH := height p in
          let q := set_height (PLAYER_SIZE * 2) (set_width (PLAYER_SIZE * 2) p) in
          let q := set_y (y q - (height q - oldH)) q in
          set_x (x q - (width q - oldW) / 2) q
        else p in
      set_giantTimer (Some (now + duration))
        (set_player (set_giantEndTime (now + duration) (set_isGiant true p1))
           (emit (PlaySound SfxCollectMushroom) e))
  | BOOSTER =>
      let duration :=
        if isBoosting p && truthy (boosterEndTime p)
           && Qgtb (boosterEndTime p) now
        then 3000 + (boosterEndTime p - now)
        else 3000 in
      set_boosterTimer (Some (now + duration))
        (set_player (set_boosterEndTime (now + duration) (set_isBoosting true p))
           (emit (PlaySound SfxCollectRocket) e))
  end.

(** The callback given to [setTimeout] for the score multiplier. *)
Definition multiplierExpired (p : Player) : Player :=
  set_scoreMultiplierActive false p.

(** The callback given to [setTimeout] for Giant. *)
Definition giantExpired (curr : Player) : Player :=
  let c := set_isGiant false curr in
  let shrinkAmount := height c - PLAYER_SIZE in
  let c := set_y (y c + shrinkAmount) c in
  let c := set_x (x c + (width c - PLAYER_SIZE) / 2) c in
  set_height PLAYER_SIZE (set_width PLAYER_SIZE c).

(** The callback given to [setTimeout] for the booster. *)
Definition boosterExpired (p : Player) : Player :=
  set_isBoosting false p.

(** The host fires a pending timer; a timer that is not pending (never set,
    cleared, or fired before) does nothing. *)
Definition fireMultiplier (e : Engine) : Engine :=
  match multiplierTimer e with
  | Some _ => set_multiplierTimer None
                (set_player (multiplierExpired (player e)) e)
  | None => e
  end.

Definition fireGiant (e : Engine) : Engine :=
  match giantTimer e with
  | Some _ => set_giantTimer None (set_player (giantExpired (player e)) e)
  | None => e
  end.

Definition fireBooster (e : Engine) : Engine :=
  match boosterTimer e with
  | Some _ => set_boosterTimer None (set_player (boosterExpired (player e)) e)
  | None => e
  end.

(** ** updatePhysics *)

(** The four entries of [keysPressed] that the engine reads. *)
Record Keys := mkKeys {
  ArrowLeft : bool;
  KeyA : bool;
  ArrowRight : bool;
  KeyD : bool
}.

(** The [Math.random()] call sites of the generator, in source order. *)
Record Draws := mkDraws {
  dGap : Q;          (* gapY *)
  dDifficulty : Q;   (* randomDifficulty *)
  dX : Q;            (* x *)
  dMoveChance : Q;   (* Math.random() < chance *)
  dSign : Q;         (* sign of moveSpeed *)
  dRange : Q;        (* moveRange *)
  dSize1 : Q;        (* first sizeRandom *)
  dSize2 : Q;        (* second sizeRandom *)
  dSpawn : Q;        (* Math.random() < POWERUP_SPAWN_CHANCE *)
  dKind : Q;         (* rand *)
  dColor : Q;        (* randomTier *)
  dId : Q            (* id *)
}.

(** What one call of [updatePhysics] reads from outside: the keys, the
    generator's draws, and [performance.now()] as read by the
    [activatePowerUp] call made for the platform at a given index. *)
Record StepInput := mkInput {
  keys : Keys;
  draws : Draws;
  clock : nat -> Q
}.

(** Moving platforms: the body of the first [platforms.forEach]. *)
Definition movePlatform (p : Platform) : Platform :=
  match isMoving p, pMoveSpeed p, initialX p, moveRange p with
  | true, Some sp, Some ix, Some mr =>
      if truthy sp then
        let x1 := px p + sp in
        let sp1 := if Qgtb x1 (ix + mr) || Qltb x1 (ix - mr) then - sp else sp in
        let x2 := if Qltb x1 0 then 0 else x1 in
        let sp2 := if Qltb x1 0 then Qabs sp1 else sp1 in
        let over := Qgtb (x2 + pwidth p) CANVAS_WIDTH in
        let x3 := if over then CANVAS_WIDTH - pwidth p else x2 in
        let sp3 := if over then - Qabs sp2 else sp2 in
        set_pMoveSpeed (Some sp3) (set_px x3 p)
      else p
  | _, _, _, _ => p
  end.

(** Horizontal input and friction, before the position is integrated. *)
Definition steer (k : Keys) (p : Player) : Player :=
  let p := if ArrowLeft k || KeyA k then set_vx (vx p - moveSpeed p) p else p in
  let p := if ArrowRight k || KeyD k then set_vx (vx p + moveSpeed p) p else p in
  let p := set_vx (vx p * FRICTION) p in
  set_x (x p + vx p) p.

Definition clampLeft (p : Player) : bool := Qltb (x p) 0.

Definition afterClampLeft (p : Player) : Player :=
  if clampLeft p then set_vx 0 (set_x 0 p) else p.

Definition clampRight (p : Player) : bool :=
  Qgtb (x p + width p) CANVAS_WIDTH.

Definition afterClampRight (p : Player) : Player :=
  if clampRight p then set_vx 0 (set_x (CANVAS_WIDTH - width p) p) else p.

(** Steering, integration of x and the two wall clamps. *)
Definition moveHorizontally (k : Keys) (p : Player) : Player :=
  afterClampRight (afterClampLeft (steer k p)).

(** Whether one of the two wall clamps fires in a step from [p]. *)
Definition clampTriggers (k : Keys) (p : Player) : bool :=
  clampLeft (steer k p) || clampRight (afterClampLeft (steer k p)).

(** Booster or gravity, then integration of y. *)
Definition moveVertically (p : Player) : Player :=
  let p := if isBoosting p then set_vy (-12) p
           else set_vy (vy p + gravity p) p in
  set_y (y p + vy p) p.

(** The landing test of the second [platforms.forEach]. *)
Definition landsOn (p : Player) (plat : Platform) : bool :=
  Qgtb (vy p) 0 && negb (isBoosting p) &&
  (let playerLeft := x p + 5 in
   let playerRight := x p + width p - 5 in
   let platLeft := px plat in
   let platRight := px plat + pwidth plat in
   Qgtb playerRight platLeft && Qltb playerLeft platRight &&
   Qgeb (y p + height p) (py plat) &&
   Qle_bool (y p + height p) (py plat + 20)).

(** The standard bounce. *)
Definition bounce (plat : Platform) (p : Player) : Player :=
  let p := set_vy (baseJumpStrength p) p in
  let p := set_y (py plat - height p) p in
  set_vx (vx p * 0.5) p.

(** The power-up collection test. *)
Definition collects (p : Player) (plat : Platform) : bool :=
  let puX := px plat + pwidth plat / 2 in
  let puY := py plat - POWERUP_SIZE in
  let collectionRadius := width p * (if isBoosting p then 1.5 else 1.0) in
  hypotLt ((x p + width p / 2) - puX) ((y p + height p / 2) - puY)
    collectionRadius.

(** The body of the second [platforms.forEach] for one platform; the
    platform comes back without its token when it was collected. *)
Definition interact (now : Q) (plat : Platform) (e : Engine)
    : Platform * Engine :=
  let e1 := if landsOn (player e) plat
            then emit (PlaySound SfxJump) (set_player (bounce plat (player e)) e)
            else e in
  match powerUp plat with
  | Some t =>
      if collects (player e1) plat
      then (set_powerUp None plat, activatePowerUp t now e1)
      else (plat, e1)
  | None => (plat, e1)
  end.

(** The second [platforms.forEach]; [i] is the index of the first platform
    of [ps]. *)
Fixpoint interactFrom (clk : nat -> Q) (i : nat) (ps : list Platform)
    (e : Engine) : list Platform * Engine :=
  match ps with
  | [] => ([], e)
  | plat :: rest =>
      let '(plat', e1) := interact (clk i) plat e in
      let '(rest', e2) := interactFrom clk (S i) rest e1 in
      (plat' :: rest', e2)
  end.

Definition interactAll (clk : nat -> Q) (e : Engine) : Engine :=
  let '(ps, e1) := interactFrom clk O (platforms e) e in
  set_platforms ps e1.

(** *** Scrolling and the generator *)

(** [arr[arr.length - 1]]. *)
Definition lastOf (l : list Platform) : option Platform :=
  nth_error l (List.length l - 1).

(** The width of a new platform before the moving-platform decision:
    the random scale, then the score shrink. *)
Definition baseWidth (currentScore : Z) (d : Draws) : Q :=
  let newWidth := PLATFORM_WIDTH in
  let randomDifficulty := 0.8 + dDifficulty d * 0.4 in
  let newWidth := newWidth * randomDifficulty in
  if (currentScore >? 500)%Z then
    let shrinkFactor := Qmin ((inject_Z currentScore - 500) / 5000) 0.5 in
    Qmax (PLATFORM_WIDTH * (1 - shrinkFactor)) 45
  else newWidth.

(** One of the two [if (isMoving)] blocks that re-randomise the width. *)
Definition resize (sizeRandomDraw : Q) (newWidth : Q) : Q :=
  let sizeRandom := 0.7 + sizeRandomDraw * 0.6 in
  let newWidth := newWidth * sizeRandom in
  Qmax 40 (Qmin newWidth (PLATFORM_WIDTH * 1.5)).

Definition becomesMoving (currentScore : Z) (d : Draws) : bool :=
  (currentScore >? 1500)%Z &&
  Qltb (dMoveChance d) (if (currentScore >? 3000)%Z then 0.6 else 0.3).

(** The centre of the oscillation of a moving platform, from the position
    [x0] drawn for it, its range and the width [newWidth] it has at that
    point of the generator. *)
Definition centreFor (x0 moveRange0 newWidth : Q) : Q :=
  let initialX0 := x0 in
  let initialX0 := if Qltb (initialX0 - moveRange0) 0 then moveRange0
                   else initialX0 in
  if Qgtb (initialX0 + moveRange0 + newWidth) CANVAS_WIDTH
  then CANVAS_WIDTH - newWidth - moveRange0
  else initialX0.

Definition spawnedPowerUp (d : Draws) : option PowerUpType :=
  if Qltb (dSpawn d) POWERUP_SPAWN_CHANCE then
    let rand := dKind d in
    if Qltb rand 0.25 then Some SHIELD
    else if Qltb rand 0.50 then Some SCORE_MULTIPLIER
    else if Qltb rand 0.75 then Some GIANT
    else Some BOOSTER
  else None.

(** The generation logic: the platform pushed above [lastPlat]. *)
Definition generate (currentScore : Z) (d : Draws) (lastPlat : Platform)
    : Platform :=
  let gapY := dGap d * 50 + 60 in
  let y0 := py lastPlat - gapY in
  let newWidth := baseWidth currentScore d in
  let minX := Qmax 0 (px lastPlat - 200) in
  let maxX := Qmin (CANVAS_WIDTH - newWidth) (px lastPlat + 200) in
  let x0 := Qmax 0 (Qmin (dX d * (maxX - minX) + minX)
                        (CANVAS_WIDTH - newWidth)) in
  let moving := becomesMoving currentScore d in
  let baseSpeed := if (currentScore >? 3000)%Z then 2.5 else 1.5 in
  let moveSpeed0 :=
    if moving then (if Qgtb (dSign d) 0.5 then 1 else -1) * baseSpeed else 0 in
  let moveRange0 := if moving then dRange d * 50 + 50 else 0 in
  let initialX0 := if moving then centreFor x0 moveRange0 newWidth else x0 in
  let x1 := if moving then initialX0 else x0 in
  let newWidth := if moving then resize (dSize1 d) newWidth else newWidth in
  let newWidth := if moving then resize (dSize2 d) newWidth else newWidth in
  let tierOfColor :=
    if moving
    then tierAt (Z.to_nat (Qfloor (dColor d * inject_Z (Z.of_nat (List.length SCORE_TIERS)))))
    else tierAt 0 in
  mkPlatform x1 y0 newWidth PLATFORM_HEIGHT (dId d) moving
    (Some moveSpeed0) (Some initialX0) (Some moveRange0) (spawnedPowerUp d)
    (color tierOfColor) (light tierOfColor).

(** Whether the scroll block runs. *)
Definition scrolls (e : Engine) : bool :=
  Qltb (y (player e)) (CANVAS_HEIGHT / 2).

(** The score gained by a scroll of [diff]. *)
Definition gainedScore (diff : Q) (p : Player) (scoreBefore : Z) : Z :=
  let multiplier0 := if scoreMultiplierActive p then 2 else 1 in
  let tier := getCurrentTier scoreBefore in
  Qfloor (diff * multiplier0 * multiplier tier).

(** The scroll block; [currentScore] is the score read at the top of
    [updatePhysics]. *)
Definition scroll (currentScore : Z) (d : Draws) (e : Engine) : Engine :=
  if scrolls e then
    let diff := CANVAS_HEIGHT / 2 - y (player e) in
    let p := set_y (CANVAS_HEIGHT / 2) (player e) in
    let shifted := map (fun q => set_py (py q + diff) q) (platforms e) in
    let newScore := (score e + gainedScore diff p (score e))%Z in
    let kept := filter (fun q => Qltb (py q) CANVAS_HEIGHT) shifted in
    let next :=
      match lastOf kept with
      | Some lastPlat =>
          if Qgtb (py lastPlat) 70
          then kept ++ [generate currentScore d lastPlat]
          else kept
      | None => kept
      end in
    emit (ScoreUpdate newScore)
      (set_score newScore (set_platforms next (set_player p e)))
  else e.

(** *** Falling through the floor *)

Definition fallsThrough (e : Engine) : bool :=
  Qgtb (y (player e)) CANVAS_HEIGHT.

Definition fallThrough (e : Engine) : Engine :=
  if fallsThrough e then
    let p := player e in
    if (shieldCount p >? 0)%Z then
      let p := set_shieldCount (shieldCount p - 1) p in
      let p := set_vy (baseJumpStrength p * 1.5) p in
      emit (PlaySound SfxShield) (set_player p e)
    else
      emit GameOver (emit (PlaySound SfxDie) e)
  else e.

(** *** The whole step *)

(** The step up to the end of the first [platforms.forEach] and of the
    integration of the player. *)
Definition integrated (k : Keys) (e : Engine) : Engine :=
  let e := set_platforms (map movePlatform (platforms e)) e in
  let e := set_player (moveHorizontally k (player e)) e in
  set_player (moveVertically (player e)) e.

(** The step up to the end of the second [platforms.forEach]. *)
Definition beforeScroll (inp : StepInput) (e : Engine) : Engine :=
  interactAll (clock inp) (integrated (keys inp) e).

(** The step up to, and without, the fall-through test. *)
Definition beforeFallThrough (inp : StepInput) (e : Engine) : Engine :=
  let currentScore := score e in
  scroll currentScore (draws inp) (beforeScroll inp e).

Definition updatePhysics (inp : StepInput) (e : Engine) : Engine :=
  fallThrough (beforeFallThrough inp e).

(** ** The driver: animate *)

Definition FIXED_TIMESTEP : Q := 1000 / 60.
Definition MAX_DELTA_TIME : Q := 250.

(** The [while] loop of [animate].  [budget] is [241 - steps]: the loop
    leaves through [break] when [steps > 240].  [inputs k] is what the
    step number [k] of this tick reads. *)
Fixpoint drain (budget : nat) (k : nat) (inputs : nat -> StepInput)
    (e : Engine) : Engine :=
  match budget with
  | O => e
  | S budget' =>
      if Qgeb (accumulator e) FIXED_TIMESTEP then
        let e := updatePhysics (inputs k) e in
        let e := set_frameCount (S (frameCount e)) e in
        let e := set_accumulator (accumulator e - FIXED_TIMESTEP) e in
        match budget' with
        | O => set_accumulator 0 e
        | S _ => drain budget' (S k) inputs e
        end
      else e
  end.

(** One animation frame, without [draw]; [gameState] is the prop the
    closure of this frame was created with. *)
Definition animate (gameState : GameState) (now : Q)
    (inputs : nat -> StepInput) (e : Engine) : Engine :=
  let e := if Qeq_bool (lastTime e) 0 then set_lastTime now e else e in
  let deltaTime := now - lastTime e in
  let e := set_lastTime now e in
  let deltaTime := if Qgtb deltaTime MAX_DELTA_TIME then MAX_DELTA_TIME
                   else deltaTime in
  match gameState with
  | PLAYING =>
      let readyTimeRemaining := readyEndTime e - now in
      if Qgtb readyTimeRemaining 0 then e
      else
        let e := if (lastReadyCount e >? 0)%Z
                 then set_lastReadyCount 0 (emit (PlaySound SfxStart) e)
                 else e in
        let e := set_accumulator (accumulator e + deltaTime) e in
        drain 241 O inputs e
  | _ => e
  end.

(** The effect that (re)starts the loop when [gameState] or
    [characterType] changes; [now] is its read of the clock. *)
Definition startLoop (gameState : GameState) (characterType : CharacterType)
    (now : Q) (e : Engine) : Engine :=
  let e := match gameState with
           | PLAYING => e
           | _ => set_player (set_type characterType (player e)) e
           end in
  set_accumulator 0 (set_lastTime now e).

(** ** What happens to the engine between two resets *)

Inductive Event :=
  | Frame (gameState : GameState) (now : Q) (inputs : nat -> StepInput)
  | MultiplierTimeout
  | GiantTimeout
  | BoosterTimeout
  | StartLoop (gameState : GameState) (characterType : CharacterType) (now : Q)
  | ResetGame (characterType : CharacterType) (now1 now2 : Q).

Definition handle (ev : Event) (e : Engine) : Engine :=
  match ev with
  | Frame gs now inputs => animate gs now inputs e
  | MultiplierTimeout => fireMultiplier e
  | GiantTimeout => fireGiant e
  | BoosterTimeout => fireBooster e
  | StartLoop gs c now => startLoop gs c now e
  | ResetGame c now1 now2 => resetGame c now1 now2 e
  end.

Fixpoint run (evs : list Event) (e : Engine) : Engine :=
  match evs with
  | [] => e
  | ev :: rest => run rest (handle ev e)
  end.

Definition isReset (ev : Event) : bool :=
  match ev with ResetGame _ _ _ => true | _ => false end.

(** A round: events without a reset. *)
Definition inRound (evs : list Event) : Prop :=
  forallb (fun ev => negb (isReset ev)) evs = true.

(** The size of the player's box agrees with [isGiant]. *)
Definition sized (p : Player) : Prop :=
  if isGiant p
  then width p == 2 * PLAYER_SIZE /\ height p == 2 * PLAYER_SIZE
  else width p == PLAYER_SIZE /\ height p == PLAYER_SIZE.

Definition centreX (p : Player) : Q := x p + width p / 2.
Definition centreY (p : Player) : Q := y p + height p / 2.
Definition bottom (p : Player) : Q := y p + height p.

(** ** Concrete situations used below *)

Definition noKeys : Keys := mkKeys false false false false.
Definition leftHeld : Keys := mkKeys true false false false.

(** Draws that make a static platform without a token. *)
Definition plainDraws : Draws := mkDraws 0.5 0.5 0.5 0.9 0.5 0.5 0.5 0.5 0.5 0.5 0.5 0.5.

Definition idle : StepInput := mkInput noKeys plainDraws (fun _ => 0).
Definition steeringLeft : StepInput := mkInput leftHeld plainDraws (fun _ => 0).

(** A fresh round for the yellow character, reset at time 0. *)
Definition freshRound : Engine := resetGame YELLOW 0 0 (mounted YELLOW).

(** The player rising through the midline with a score of 2600. *)
Definition climbing : Engine :=
  set_score 2600
    (set_player (set_vy (-10) (set_y 305 (initialPlayer YELLOW))) freshRound).

(** The player below the floor, left of every platform, with one shield. *)
Definition fallingShielded : Engine :=
  set_player
    (set_shieldCount 1 (set_vy 5 (set_y 700 (set_x 0 (initialPlayer YELLOW)))))
    freshRound.

(** [n] animation frames, [dt] ms apart from time [t] on, with the left key
    held, while the host shows the game as PLAYING. *)
Fixpoint framesLeft (dt : Q) (n : nat) (t : Q) : list Event :=
  match n with
  | O => []
  | S m => Frame PLAYING t (fun _ => steeringLeft) :: framesLeft dt m (t + dt)
  end.

(** The numbers of a state in lowest terms, for comparing two states. *)
Definition summaryOfPlayer (p : Player) :=
  (Qred (x p), Qred (y p), Qred (vx p), Qred (vy p), Qred (width p),
   Qred (height p), shieldCount p, isGiant p, isBoosting p).

Definition summaryOfPlatform (q : Platform) :=
  (Qred (px q), Qred (py q), Qred (pwidth q), isMoving q, powerUp q).

Definition summary (e : Engine) :=
  (summaryOfPlayer (player e), map summaryOfPlatform (platforms e), score e,
   Qred (lastTime e), Qred (accumulator e), Qred (readyEndTime e),
   lastReadyCount e, frameCount e, gameOverCalls e).

(** The yellow player at the left wall, falling, with y 19.5 short of the
    world height and no shield: the state after the 29 frames
    [framesLeft 47 29 1500] of a fresh round. *)
Definition aboutToFall : Engine :=
  mkEngine
    (set_vy 16.5 (set_y 580.5 (set_x 0 (initialPlayer YELLOW))))
    [ staticPlatform 147.5 557.5 0; staticPlatform 147.5 437.5 1;
      staticPlatform 87.5 317.5 2; staticPlatform 207.5 197.5 3;
      staticPlatform 147.5 77.5 4; staticPlatform 147.5 (-7.5) 0.5 ]
    6 None None None 2816 16 1500 0 78 [].

(** The player at the left wall next to a Giant token. *)
Definition besideGiantToken : Engine :=
  set_platforms
    [ mkPlatform 0 540 PLATFORM_WIDTH PLATFORM_HEIGHT 7 false (Some 0)
        (Some 0) (Some 0) (Some GIANT) (color (tierAt 0)) (light (tierAt 0)) ]
    (set_player (set_y 500 (set_x 0 (initialPlayer YELLOW))) freshRound).

(** The player falling onto two platforms that overlap in y. *)
Definition upperPlatform : Platform := staticPlatform 150 580 0.
Definition lowerPlatform : Platform := staticPlatform 150 584 1.

Definition overTwoPlatforms : Engine :=
  set_platforms [upperPlatform; lowerPlatform]
    (set_player (set_vy 5 (set_y 540 (initialPlayer YELLOW))) freshRound).

(** Draws that make a moving platform with the widest re-randomised width
    at the right end of the drawn range; the platform below it. *)
Definition wideMovingDraws : Draws :=
  mkDraws 0.5 0.5 0.99 0.1 0.7 0.01 0.99 0.99 0.5 0.5 0.5 0.5.

Definition referencePlatform : Platform := staticPlatform 300 100 9.

(** Draws whose random width scale is 0.9. *)
Definition narrowDraws : Draws :=
  mkDraws 0.5 0.25 0.5 0.9 0.5 0.5 0.5 0.5 0.5 0.5 0.5 0.5.

(** ** Invariants of the second [platforms.forEach] *)

(** What the fall-through test finds was already so when the step began. *)
Definition carried (n : nat) (b : Q) (e : Engine) : Prop :=
  gameOverCalls e = n /\ baseJumpStrength (player e) = b.

(** What the second [forEach] can do to the horizontal state found by it:
    it damps [vx], and moves [x] only when the player grows. *)
Definition anchored (x0 w0 : Q) (g0 : bool) (vx0 : Q) (e : Engine) : Prop :=
  (vx0 == 0 -> vx (player e) == 0) /\
  ((isGiant (player e) = g0 /\ x (player e) = x0 /\ width (player e) = w0) \/
   (g0 = false /\ isGiant (player e) = true)).



(** ** Notions used for the rest of the engine *)

(** A result of [Math.random()]. *)
Definition inUnit (r : Q) : Prop := 0 <= r /\ r < 1.

(** A platform that lies inside the world horizontally. *)
Definition inWorld (q : Platform) : Prop :=
  0 <= px q /\ px q + pwidth q <= CANVAS_WIDTH.

(** The test of the first [platforms.forEach]: the platform moves. *)
Definition moves (q : Platform) : bool :=
  isMoving q &&
  match pMoveSpeed q, initialX q, moveRange q with
  | Some sp, Some _, Some _ => truthy sp
  | _, _, _ => false
  end.

(** A moving platform inside its range, or one step outside of it and on
    its way back. *)
Definition oscillating (q : Platform) : Prop :=
  match pMoveSpeed q, initialX q, moveRange q with
  | Some sp, Some c, Some r =>
      (c - r <= px q /\ px q <= c + r) \/
      (c + r < px q /\ px q <= c + r + Qabs sp /\ sp < 0) \/
      (c - r - Qabs sp <= px q /\ px q < c - r /\ 0 < sp)
  | _, _, _ => False
  end.

(** A moving platform in the middle of the world, at its centre. *)
Definition shuttle : Platform :=
  mkPlatform 200 100 80 PLATFORM_HEIGHT 1 true (Some 1.5) (Some 200)
    (Some 60) None (color (tierAt 0)) (light (tierAt 0)).

(** The refs of the loop driver, which [updatePhysics] does not touch. *)
Definition loopFields (e : Engine) : Q * Q * Q * Z * nat :=
  (lastTime e, accumulator e, readyEndTime e, lastReadyCount e, frameCount e).



(** A power-up flag and its timer: the timer is pending exactly while the
    flag is set, and its deadline is the recorded end time. *)
Definition agrees (flag : bool) (endTime : Q) (timer : option Q) : Prop :=
  match timer with
  | Some deadline => flag = true /\ deadline = endTime
  | None => flag = false
  end.

Definition timersAgree (e : Engine) : Prop :=
  agrees (scoreMultiplierActive (player e)) (scoreMultiplierEndTime (player e))
    (multiplierTimer e) /\
  agrees (isGiant (player e)) (giantEndTime (player e)) (giantTimer e) /\
  agrees (isBoosting (player e)) (boosterEndTime (player e)) (boosterTimer e).

(** How often the start sound was played. *)
Definition isStart (c : Call) : bool :=
  match c with PlaySound SfxStart => true | _ => false end.

Definition starts (e : Engine) : nat :=
  List.length (filter isStart (calls e)).

(** The horizontal speed is within four times the acceleration. *)
Definition speedBounded (p : Player) : Prop :=
  0 <= moveSpeed p /\ - (4 * moveSpeed p) <= vx p /\ vx p <= 4 * moveSpeed p.

(** The state before the start sound of a round, and after it. *)
Definition startPending (n : nat) (e : Engine) : Prop :=
  (starts e <= S n)%nat /\ ((0 < lastReadyCount e)%Z -> starts e = n).

(** Tokens lying on platforms, and tokens collected so far (every
    activation plays one of the four collection sounds). *)
Definition hasToken (q : Platform) : bool :=
  match powerUp q with Some _ => true | None => false end.

Definition tokens (ps : list Platform) : nat :=
  List.length (filter hasToken ps).

Definition isCollect (c : Call) : bool :=
  match c with
  | PlaySound SfxCollectShield | PlaySound SfxCollectStar
  | PlaySound SfxCollectMushroom | PlaySound SfxCollectRocket => true
  | _ => false
  end.

Definition pickups (e : Engine) : nat :=
  List.length (filter isCollect (calls e)).



(** ** The input handlers of the canvas *)

(** [keysPressed.current[code] = v], as far as the four entries go that
    the engine reads. *)
Definition setKey (code : string) (v : bool) (k : Keys) : Keys :=
  if String.eqb code "ArrowLeft" then mkKeys v (KeyA k) (ArrowRight k) (KeyD k)
  else if String.eqb code "KeyA" then mkKeys (ArrowLeft k) v (ArrowRight k) (KeyD k)
  else if String.eqb code "ArrowRight" then mkKeys (ArrowLeft k) (KeyA k) v (KeyD k)
  else if String.eqb code "KeyD" then mkKeys (ArrowLeft k) (KeyA k) (ArrowRight k) v
  else k.

Definition handleKeyDown (code : string) (k : Keys) : Keys := setKey code true k.
Definition handleKeyUp (code : string) (k : Keys) : Keys := setKey code false k.

(** [handleTouchStart] for a touch at [touchX], the canvas rectangle
    starting at [rectLeft] and [rectWidth] wide. *)
Definition handleTouchStart (touchX rectLeft rectWidth : Q) (k : Keys) : Keys :=
  let canvasX := touchX - rectLeft in
  if Qltb canvasX (rectWidth / 2)
  then setKey "ArrowRight" false (setKey "ArrowLeft" true k)
  else setKey "ArrowLeft" false (setKey "ArrowRight" true k).

Definition handleTouchEnd (k : Keys) : Keys :=
  setKey "ArrowRight" false (setKey "ArrowLeft" false k).

(** ** The host component (App) *)


Definition MAX_LEADERBOARD_ENTRIES : nat := 20.

Record LeaderboardEntry := mkEntry {
  entryName : string;
  entryScore : Z;
  entryCharacter : CharacterType;
  entryTimestamp : Z
}.

(** The test of [handleGameOver] that opens the new-record form;
    [latestData[latestData.length - 1]] exists when the board is full. *)
Definition isNewRecord (score : Z) (latestData : list LeaderboardEntry) : bool :=
  let lowestScore :=
    if (List.length latestData <? MAX_LEADERBOARD_ENTRIES)%nat
    then 0%Z
    else nth (List.length latestData - 1) (map entryScore latestData) 0%Z in
  (score >? 0)%Z &&
  ((List.length latestData <? MAX_LEADERBOARD_ENTRIES)%nat
   || (score >? lowestScore)%Z).




(** * Properties *)

(** ** Numbers *)

Lemma Qltb_lt a b : Qltb a b = true <-> a < b.
Proof.
  unfold Qltb. rewrite negb_true_iff, <- not_true_iff_false, Qle_bool_iff.
  split; [apply Qnot_le_lt | apply Qlt_not_le].
Qed.

Lemma Qltb_ge a b : Qltb a b = false <-> b <= a.
Proof.
  unfold Qltb. rewrite negb_false_iff. apply Qle_bool_iff.
Qed.

Lemma Qgtb_gt a b : Qgtb a b = true <-> b < a.
Proof. apply Qltb_lt. Qed.

Lemma Qgtb_le a b : Qgtb a b = false <-> a <= b.
Proof. apply Qltb_ge. Qed.


Lemma Qle_bool_gt a b : Qle_bool a b = false <-> b < a.
Proof.
  rewrite <- not_true_iff_false, Qle_bool_iff.
  split; [apply Qnot_le_lt | apply Qlt_not_le].
Qed.

Lemma Qmax_cases a b : (a <= b /\ Qmax a b = b) \/ (b < a /\ Qmax a b = a).
Proof.
  unfold Qmax. destruct (Qle_bool a b) eqn:E.
  - left. split; [now apply Qle_bool_iff | reflexivity].
  - right. split; [now apply Qle_bool_gt | reflexivity].
Qed.

Lemma Qmin_cases a b : (a <= b /\ Qmin a b = a) \/ (b < a /\ Qmin a b = b).
Proof.
  unfold Qmin. destruct (Qle_bool a b) eqn:E.
  - left. split; [now apply Qle_bool_iff | reflexivity].
  - right. split; [now apply Qle_bool_gt | reflexivity].
Qed.

Lemma Qfloor_nonneg q : 0 <= q -> (0 <= Qfloor q)%Z.
Proof. intros H. apply (Qfloor_resp_le 0 q H). Qed.

(** ** The tier table *)

Lemma getCurrentTier_cases s :
  (s < 1000 /\ getCurrentTier s = tierAt 0)%Z \/
  (1000 <= s < 2500 /\ getCurrentTier s = tierAt 1)%Z \/
  (2500 <= s < 5000 /\ getCurrentTier s = tierAt 2)%Z \/
  (5000 <= s < 8000 /\ getCurrentTier s = tierAt 3)%Z \/
  (8000 <= s /\ getCurrentTier s = tierAt 4)%Z.
Proof.
  unfold getCurrentTier. cbn [List.length SCORE_TIERS scanTiers].
  repeat match goal with
  | |- context [(s >=? ?t)%Z] =>
      let E := fresh "E" in
      destruct (Z.geb_spec s t) as [E|E]; cbn [tierAt nth SCORE_TIERS tmin] in E
  end; intuition lia.
Qed.

Lemma getCurrentTier_in s : In (getCurrentTier s) SCORE_TIERS.
Proof.
  destruct (getCurrentTier_cases s) as [[_ E]|[[_ E]|[[_ E]|[[_ E]|[_ E]]]]];
    rewrite E; cbn; auto 6.
Qed.

Lemma tier_multiplier_ge_1 t : In t SCORE_TIERS -> 1 <= multiplier t.
Proof.
  cbn. intros [E|[E|[E|[E|[E|[]]]]]]; subst t; cbn; unfold Qle; cbn; lia.
Qed.

(** ** What the stages of a step keep *)

Lemma activatePowerUp_score t now e : score (activatePowerUp t now e) = score e.
Proof. destruct t; reflexivity. Qed.

Lemma interact_score now plat e : score (snd (interact now plat e)) = score e.
Proof.
  unfold interact.
  destruct (landsOn (player e) plat); destruct (powerUp plat);
    try destruct (collects _ plat); cbn [snd];
    rewrite ?activatePowerUp_score; reflexivity.
Qed.

Lemma interactFrom_score clk ps : forall i e,
  score (snd (interactFrom clk i ps e)) = score e.
Proof.
  induction ps as [|plat rest IH]; intros i e; cbn [interactFrom].
  - reflexivity.
  - pose proof (interact_score (clk i) plat e) as H1.
    destruct (interact (clk i) plat e) as [plat' e1]. cbn [snd] in H1.
    specialize (IH (S i) e1).
    destruct (interactFrom clk (S i) rest e1) as [rest' e2]. cbn [snd] in *.
    congruence.
Qed.

Lemma beforeScroll_score inp e : score (beforeScroll inp e) = score e.
Proof.
  unfold beforeScroll, interactAll.
  pose proof (interactFrom_score (clock inp) (platforms (integrated (keys inp) e))
                O (integrated (keys inp) e)) as H.
  destruct (interactFrom _ _ _ _) as [ps e1]. cbn [snd] in H.
  cbn. rewrite H. reflexivity.
Qed.

Lemma fallThrough_score e : score (fallThrough e) = score e.
Proof.
  unfold fallThrough. destruct (fallsThrough e); [|reflexivity].
  destruct (shieldCount (player e) >? 0)%Z; reflexivity.
Qed.

Lemma scroll_score cs d e :
  score (scroll cs d e) =
  if scrolls e
  then (score e + gainedScore (CANVAS_HEIGHT / 2 - y (player e))
                    (set_y (CANVAS_HEIGHT / 2) (player e)) (score e))%Z
  else score e.
Proof. unfold scroll. destruct (scrolls e); reflexivity. Qed.

Lemma updatePhysics_score inp e :
  score (updatePhysics inp e) =
  if scrolls (beforeScroll inp e)
  then (score e + gainedScore (CANVAS_HEIGHT / 2 - y (player (beforeScroll inp e)))
                    (player (beforeScroll inp e)) (score e))%Z
  else score e.
Proof.
  unfold updatePhysics, beforeFallThrough.
  rewrite fallThrough_score, scroll_score, beforeScroll_score.
  destruct (scrolls (beforeScroll inp e)); reflexivity.
Qed.

Lemma gainedScore_nonneg diff p s : 0 < diff -> (0 <= gainedScore diff p s)%Z.
Proof.
  intros Hd. unfold gainedScore. apply Qfloor_nonneg.
  pose proof (tier_multiplier_ge_1 _ (getCurrentTier_in s)) as Ht.
  apply Qmult_le_0_compat; [|lra].
  destruct (scoreMultiplierActive p); lra.
Qed.

Lemma scrolls_diff e : scrolls e = true -> 0 < CANVAS_HEIGHT / 2 - y (player e).
Proof. unfold scrolls. rewrite Qltb_lt. lra. Qed.

Lemma updatePhysics_score_le inp e : (score e <= score (updatePhysics inp e))%Z.
Proof.
  rewrite updatePhysics_score.
  destruct (scrolls (beforeScroll inp e)) eqn:E; [|lia].
  pose proof (gainedScore_nonneg _ (player (beforeScroll inp e)) (score e)
                (scrolls_diff _ E)). lia.
Qed.

(** ** Score *)

Lemma drain_score_le budget : forall k inputs e,
  (score e <= score (drain budget k inputs e))%Z.
Proof.
  induction budget as [|b IH]; intros k inputs e; cbn [drain]; [lia|].
  destruct (Qgeb (accumulator e) FIXED_TIMESTEP); [|lia].
  pose proof (updatePhysics_score_le (inputs k) e) as H.
  destruct b as [|b'].
  - cbn [score set_accumulator set_frameCount]. exact H.
  - etransitivity; [exact H|].
    etransitivity; [|apply IH]. cbn [score set_accumulator set_frameCount]. lia.
Qed.

Lemma animate_score_le gs now inputs e :
  (score e <= score (animate gs now inputs e))%Z.
Proof.
  unfold animate.
  destruct gs;
    try (destruct (Qeq_bool (lastTime e) 0); cbn [score set_lastTime]; lia).
  match goal with |- context [if Qgtb ?a 0 then _ else _] => destruct (Qgtb a 0) end.
  - destruct (Qeq_bool (lastTime e) 0); cbn [score set_lastTime]; lia.
  - etransitivity; [|apply drain_score_le].
    destruct (Qeq_bool (lastTime e) 0);
      cbn [score set_lastTime set_accumulator lastReadyCount];
      match goal with |- context [(?a >? 0)%Z] => destruct (a >? 0)%Z end;
      cbn [score set_lastTime set_accumulator set_lastReadyCount emit]; lia.
Qed.

Lemma timeouts_keep_score e :
  score (fireMultiplier e) = score e /\
  score (fireGiant e) = score e /\
  score (fireBooster e) = score e.
Proof.
  unfold fireMultiplier, fireGiant, fireBooster.
  destruct (multiplierTimer e), (giantTimer e), (boosterTimer e); auto.
Qed.

Lemma startLoop_score gs c now e : score (startLoop gs c now e) = score e.
Proof. destruct gs; reflexivity. Qed.

Lemma handle_score_le ev e :
  isReset ev = false -> (score e <= score (handle ev e))%Z.
Proof.
  destruct (timeouts_keep_score e) as (H1 & H2 & H3).
  destruct ev; cbn [handle isReset]; intros H; try discriminate.
  - apply animate_score_le.
  - lia.
  - lia.
  - lia.
  - rewrite startLoop_score. lia.
Qed.

Lemma run_score_le evs : forall e,
  inRound evs -> (score e <= score (run evs e))%Z.
Proof.
  unfold inRound.
  induction evs as [|ev rest IH]; intros e H; cbn [run]; [lia|].
  cbn [forallb] in H. apply andb_true_iff in H as [H1 H2].
  apply negb_true_iff in H1.
  etransitivity; [apply (handle_score_le ev e H1)|]. apply IH, H2.
Qed.

(** C9: on a scroll step the score grows by
    [floor(diff * multiplier * tierMultiplier)], where [multiplier] is 2 iff
    the score multiplier is active and the tier is looked up for the score
    before the gain; the lookup returns the tier with the highest threshold
    that the score reaches (the lowest tier below every threshold), and the
    2500 tier, of multiplier 2, for a score of 2600. *)
Theorem scroll_score_gain :
  (forall inp e,
     let m := beforeScroll inp e in
     let diff := CANVAS_HEIGHT / 2 - y (player m) in
     let mult := if scoreMultiplierActive (player m) then 2 else 1 in
     let tier := getCurrentTier (score e) in
     scrolls m = true ->
     score (updatePhysics inp e)
     = (score e + Qfloor (diff * mult * multiplier tier))%Z) /\
  (forall s,
     In (getCurrentTier s) SCORE_TIERS /\
     ((0 <= s)%Z ->
        (tmin (getCurrentTier s) <= s)%Z /\
        forall u, In u SCORE_TIERS -> (tmin u <= s)%Z ->
                  (tmin u <= tmin (getCurrentTier s))%Z) /\
     ((s < 0)%Z -> getCurrentTier s = tierAt 0)) /\
  map tmin SCORE_TIERS = [0; 1000; 2500; 5000; 8000]%Z /\
  tmin (getCurrentTier 2600) = 2500%Z /\
  multiplier (getCurrentTier 2600) == 2.
Proof.
  split; [|split; [|split; [reflexivity|split; reflexivity]]].
  - intros inp e m diff mult tier H.
    rewrite updatePhysics_score. fold m. rewrite H. reflexivity.
  - intros s. split; [apply getCurrentTier_in|]. split.
    + intros Hs.
      destruct (getCurrentTier_cases s) as [[R E]|[[R E]|[[R E]|[[R E]|[R E]]]]];
        rewrite E; cbn [tierAt nth SCORE_TIERS tmin]; (split; [lia|]);
        intros u [U|[U|[U|[U|[U|[]]]]]]; subst u; cbn [tmin]; lia.
    + intros Hs.
      destruct (getCurrentTier_cases s) as [[R E]|[[R E]|[[R E]|[[R E]|[R E]]]]];
        (exact E || lia).
Qed.

Lemma scroll_score_gain_witness :
  scrolls (beforeScroll idle climbing) = true /\
  score (updatePhysics idle climbing) = 2609%Z /\
  (0 <= 2600)%Z /\
  (tmin (getCurrentTier 2600) <= 2600)%Z /\
  (-1 < 0)%Z /\
  getCurrentTier (-1) = tierAt 0.
Proof.
  assert (H : scrolls (beforeScroll idle climbing) = true)
    by (vm_compute; reflexivity).
  assert (H0 : (0 <= 2600)%Z) by lia.
  assert (H1 : (-1 < 0)%Z) by lia.
  destruct scroll_score_gain as (G & T & _).
  split; [exact H|].
  split; [rewrite (G idle climbing H); vm_compute; reflexivity|].
  split; [exact H0|].
  split; [exact (proj1 (proj1 (proj2 (T 2600%Z)) H0))|].
  split; [exact H1|].
  exact (proj2 (proj2 (T (-1)%Z)) H1).
Defined.

(** C10: the score is an integer that is 0 after a reset, is never
    negative and never decreases during a round; only a physics step that
    scrolls changes it, by [floor(diff * multiplier * tierMultiplier)],
    which is not negative because [diff > 0] and both multipliers are at
    least 1. *)
Theorem score_never_decreases :
  (forall c now1 now2 e, score (resetGame c now1 now2 e) = 0%Z) /\
  (forall evs e, inRound evs -> (score e <= score (run evs e))%Z) /\
  (forall evs c now1 now2 e,
     inRound evs -> (0 <= score (run evs (resetGame c now1 now2 e)))%Z) /\
  (forall e gs c now,
     score (fireMultiplier e) = score e /\
     score (fireGiant e) = score e /\
     score (fireBooster e) = score e /\
     score (startLoop gs c now e) = score e) /\
  (forall inp e,
     scrolls (beforeScroll inp e) = false ->
     score (updatePhysics inp e) = score e) /\
  (forall inp e,
     let m := beforeScroll inp e in
     let diff := CANVAS_HEIGHT / 2 - y (player m) in
     let mult := if scoreMultiplierActive (player m) then 2 else 1 in
     let tier := getCurrentTier (score e) in
     scrolls m = true ->
     0 < diff /\ 1 <= mult /\ 1 <= multiplier tier /\
     (0 <= Qfloor (diff * mult * multiplier tier))%Z /\
     score (updatePhysics inp e)
     = (score e + Qfloor (diff * mult * multiplier tier))%Z).
Proof.
  split; [reflexivity|].
  split; [exact run_score_le|].
  split.
  { intros evs c now1 now2 e H.
    apply (run_score_le evs (resetGame c now1 now2 e)) in H.
    cbn [score resetGame] in H. exact H. }
  split.
  { intros e gs c now. destruct (timeouts_keep_score e) as (H1 & H2 & H3).
    rewrite startLoop_score. auto. }
  split.
  { intros inp e H. rewrite updatePhysics_score, H. reflexivity. }
  intros inp e m diff mult tier H.
  pose proof (scrolls_diff _ H) as Hd. fold m in Hd. fold diff in Hd.
  split; [exact Hd|].
  split; [subst mult; destruct (scoreMultiplierActive (player m)); lra|].
  split; [apply tier_multiplier_ge_1, getCurrentTier_in|].
  split; [apply (gainedScore_nonneg diff (player m) (score e) Hd)|].
  rewrite updatePhysics_score. fold m. rewrite H. reflexivity.
Qed.

Lemma score_never_decreases_witness :
  inRound [Frame PLAYING 1500 (fun _ => idle); GiantTimeout] /\
  (score freshRound
   <= score (run [Frame PLAYING 1500 (fun _ => idle); GiantTimeout] freshRound))%Z /\
  (0 <= score (run [Frame PLAYING 1500 (fun _ => idle); GiantTimeout]
                 (resetGame YELLOW 0 0 (mounted YELLOW))))%Z /\
  scrolls (beforeScroll idle freshRound) = false /\
  score (updatePhysics idle freshRound) = score freshRound /\
  scrolls (beforeScroll idle climbing) = true /\
  (2600 <= score (updatePhysics idle climbing))%Z.
Proof.
  destruct score_never_decreases as (_ & H2 & H3 & _ & H5 & H6).
  assert (R : inRound [Frame PLAYING 1500 (fun _ => idle); GiantTimeout])
    by reflexivity.
  assert (N : scrolls (beforeScroll idle freshRound) = false)
    by (vm_compute; reflexivity).
  assert (H : scrolls (beforeScroll idle climbing) = true)
    by (vm_compute; reflexivity).
  split; [exact R|].
  split; [exact (H2 _ freshRound R)|].
  split; [exact (H3 _ YELLOW 0 0 (mounted YELLOW) R)|].
  split; [exact N|].
  split; [exact (H5 idle freshRound N)|].
  split; [exact H|].
  destruct (H6 idle climbing H) as (_ & _ & _ & Hg & Hs).
  rewrite Hs. clear Hs. revert Hg.
  match goal with |- context [Qfloor ?q] => generalize (Qfloor q) end.
  intros g Hg. change (score climbing) with 2600%Z. lia.
Defined.

(** ** Timed power-ups *)

Lemma truthy_pos a : 0 < a -> truthy a = true.
Proof.
  intros H. unfold truthy. destruct (Qeq_bool a 0) eqn:E; [|reflexivity].
  apply Qeq_bool_iff in E. lra.
Qed.

(** C3: activating a timed power-up that is still active, with [r > 0]
    left, moves its expiry to [now + duration + r]; the durations are
    10000, 5000 and 3000 ms.  Activating the score multiplier at 0 and
    again at 4000 gives the expiry 20000.  The clock is not negative. *)
Theorem additive_refresh :
  (forall now r e,
     0 <= now -> 0 < r ->
     scoreMultiplierActive (player e) = true ->
     scoreMultiplierEndTime (player e) - now == r ->
     let e' := activatePowerUp SCORE_MULTIPLIER now e in
     scoreMultiplierActive (player e') = true /\
     scoreMultiplierEndTime (player e') == now + POWERUP_DURATION + r /\
     multiplierTimer e' = Some (scoreMultiplierEndTime (player e'))) /\
  (forall now r e,
     0 <= now -> 0 < r ->
     isGiant (player e) = true ->
     giantEndTime (player e) - now == r ->
     let e' := activatePowerUp GIANT now e in
     isGiant (player e') = true /\
     giantEndTime (player e') == now + 5000 + r /\
     giantTimer e' = Some (giantEndTime (player e'))) /\
  (forall now r e,
     0 <= now -> 0 < r ->
     isBoosting (player e) = true ->
     boosterEndTime (player e) - now == r ->
     let e' := activatePowerUp BOOSTER now e in
     isBoosting (player e') = true /\
     boosterEndTime (player e') == now + 3000 + r /\
     boosterTimer e' = Some (boosterEndTime (player e'))) /\
  POWERUP_DURATION == 10000 /\
  (let e1 := activatePowerUp SCORE_MULTIPLIER 0 freshRound in
   let e2 := activatePowerUp SCORE_MULTIPLIER 4000 e1 in
   scoreMultiplierEndTime (player e1) == 10000 /\
   scoreMultiplierEndTime (player e2) == 20000).
Proof.
  split; [|split; [|split; [|split]]].
  - intros now r e Hn Hr Ha He e'. subst e'.
    cbn [activatePowerUp player set_player set_multiplierTimer emit
         multiplierTimer scoreMultiplierActive scoreMultiplierEndTime
         set_scoreMultiplierEndTime set_scoreMultiplierActive].
    rewrite Ha, truthy_pos by lra.
    replace (Qgtb (scoreMultiplierEndTime (player e)) now) with true
      by (symmetry; apply Qgtb_gt; lra).
    cbn [andb]. split; [reflexivity|]. split; [lra|reflexivity].
  - intros now r e Hn Hr Ha He e'. subst e'.
    cbn [activatePowerUp]. rewrite Ha, truthy_pos by lra.
    replace (Qgtb (giantEndTime (player e)) now) with true
      by (symmetry; apply Qgtb_gt; lra).
    cbn [andb negb player set_player set_giantTimer emit giantTimer isGiant
         giantEndTime set_giantEndTime set_isGiant].
    split; [reflexivity|]. split; [lra|reflexivity].
  - intros now r e Hn Hr Ha He e'. subst e'.
    cbn [activatePowerUp]. rewrite Ha, truthy_pos by lra.
    replace (Qgtb (boosterEndTime (player e)) now) with true
      by (symmetry; apply Qgtb_gt; lra).
    cbn [andb player set_player set_boosterTimer emit boosterTimer isBoosting
         boosterEndTime set_boosterEndTime set_isBoosting].
    split; [reflexivity|]. split; [lra|reflexivity].
  - reflexivity.
  - split; vm_compute; reflexivity.
Qed.

Lemma additive_refresh_witness :
  let m := activatePowerUp SCORE_MULTIPLIER 0 freshRound in
  let g := activatePowerUp GIANT 0 freshRound in
  let b := activatePowerUp BOOSTER 0 freshRound in
  0 <= 4000 /\ 0 < 6000 /\ 0 < 1000 /\
  scoreMultiplierActive (player m) = true /\
  scoreMultiplierEndTime (player m) - 4000 == 6000 /\
  scoreMultiplierEndTime (player (activatePowerUp SCORE_MULTIPLIER 4000 m))
  == 4000 + POWERUP_DURATION + 6000 /\
  isGiant (player g) = true /\
  giantEndTime (player g) - 4000 == 1000 /\
  giantEndTime (player (activatePowerUp GIANT 4000 g)) == 4000 + 5000 + 1000 /\
  isBoosting (player b) = true /\
  boosterEndTime (player b) - 2000 == 1000 /\
  boosterEndTime (player (activatePowerUp BOOSTER 2000 b)) == 2000 + 3000 + 1000.
Proof.
  intros m g b.
  assert (H1 : 0 <= 4000) by (vm_compute; discriminate).
  assert (H1' : 0 <= 2000) by (vm_compute; discriminate).
  assert (H2 : 0 < 6000) by (vm_compute; reflexivity).
  assert (H2' : 0 < 1000) by (vm_compute; reflexivity).
  assert (M3 : scoreMultiplierActive (player m) = true) by reflexivity.
  assert (M4 : scoreMultiplierEndTime (player m) - 4000 == 6000)
    by (vm_compute; reflexivity).
  assert (G3 : isGiant (player g) = true) by reflexivity.
  assert (G4 : giantEndTime (player g) - 4000 == 1000)
    by (vm_compute; reflexivity).
  assert (B3 : isBoosting (player b) = true) by reflexivity.
  assert (B4 : boosterEndTime (player b) - 2000 == 1000)
    by (vm_compute; reflexivity).
  destruct additive_refresh as (M & G & B & _).
  split; [exact H1|]. split; [exact H2|]. split; [exact H2'|].
  split; [exact M3|]. split; [exact M4|].
  split; [exact (proj1 (proj2 (M 4000 6000 m H1 H2 M3 M4)))|].
  split; [exact G3|]. split; [exact G4|].
  split; [exact (proj1 (proj2 (G 4000 1000 g H1 H2' G3 G4)))|].
  split; [exact B3|]. split; [exact B4|].
  exact (proj1 (proj2 (B 2000 1000 b H1' H2' B3 B4))).
Defined.

(** ** Invariants of a step and of a frame *)

Section StepInvariant.
Variable P : Engine -> Prop.
Hypothesis P_platforms : forall ps e, P e -> P (set_platforms ps e).
Hypothesis P_bounce : forall plat e,
  P e -> landsOn (player e) plat = true ->
  P (emit (PlaySound SfxJump) (set_player (bounce plat (player e)) e)).
Hypothesis P_activate : forall t now e, P e -> P (activatePowerUp t now e).

Lemma interact_inv now plat e : P e -> P (snd (interact now plat e)).
Proof.
  intros H. unfold interact.
  destruct (landsOn (player e) plat) eqn:L.
  - destruct (powerUp plat); [destruct (collects _ plat)|]; cbn [snd]; auto.
  - destruct (powerUp plat); [destruct (collects _ plat)|]; cbn [snd]; auto.
Qed.

Lemma interactFrom_inv clk ps : forall i e,
  P e -> P (snd (interactFrom clk i ps e)).
Proof.
  induction ps as [|plat rest IH]; intros i e H; cbn [interactFrom].
  - exact H.
  - pose proof (interact_inv (clk i) plat e H) as H1.
    destruct (interact (clk i) plat e) as [plat' e1]. cbn [snd] in H1.
    specialize (IH (S i) e1 H1).
    destruct (interactFrom clk (S i) rest e1) as [rest' e2]. exact IH.
Qed.

Lemma interactAll_inv clk e : P e -> P (interactAll clk e).
Proof.
  intros H. unfold interactAll.
  pose proof (interactFrom_inv clk (platforms e) O e H) as H1.
  destruct (interactFrom clk 0 (platforms e) e) as [ps e1]. auto.
Qed.
End StepInvariant.

Section FrameInvariant.
Variable P : Engine -> Prop.
Hypothesis P_step : forall inp e, P e -> P (updatePhysics inp e).
Hypothesis P_frameCount : forall n e, P e -> P (set_frameCount n e).
Hypothesis P_accumulator : forall a e, P e -> P (set_accumulator a e).
Hypothesis P_lastTime : forall t e, P e -> P (set_lastTime t e).
Hypothesis P_lastReadyCount : forall n e, P e -> P (set_lastReadyCount n e).
Hypothesis P_start : forall e, P e -> P (emit (PlaySound SfxStart) e).

Lemma drain_inv budget : forall k inputs e,
  P e -> P (drain budget k inputs e).
Proof.
  induction budget as [|b IH]; intros k inputs e H; cbn [drain]; [exact H|].
  destruct (Qgeb (accumulator e) FIXED_TIMESTEP); [|exact H].
  destruct b as [|b']; [|apply IH]; auto.
Qed.

Lemma animate_inv gs now inputs e : P e -> P (animate gs now inputs e).
Proof.
  intros H. unfold animate.
  assert (H0 : P (if Qeq_bool (lastTime e) 0 then set_lastTime now e else e))
    by (destruct (Qeq_bool (lastTime e) 0); auto).
  revert H0. generalize (if Qeq_bool (lastTime e) 0 then set_lastTime now e else e).
  intros e0 H0.
  destruct gs; auto.
  match goal with |- context [if Qgtb ?a 0 then _ else _] => destruct (Qgtb a 0) end;
    auto.
  apply drain_inv, P_accumulator.
  match goal with |- context [(?a >? 0)%Z] => destruct (a >? 0)%Z end; auto.
Qed.
End FrameInvariant.

(** ** The size of the player *)

Lemma sized_ext p q :
  isGiant p = isGiant q -> width p = width q -> height p = height q ->
  sized q -> sized p.
Proof. unfold sized. intros -> -> ->. auto. Qed.

Lemma activatePowerUp_sized t now e :
  sized (player e) -> sized (player (activatePowerUp t now e)).
Proof.
  intros H. destruct t; try exact H.
  unfold sized in *. cbn [activatePowerUp player set_player set_giantTimer
    set_giantEndTime set_isGiant isGiant width height].
  destruct (isGiant (player e)); cbn; [exact H|].
  split; unfold PLAYER_SIZE; lra.
Qed.

Lemma giantExpired_sized p : sized (giantExpired p).
Proof. unfold sized. cbn. split; reflexivity. Qed.

Lemma moveHorizontally_dims k p :
  isGiant (moveHorizontally k p) = isGiant p /\
  width (moveHorizontally k p) = width p /\
  height (moveHorizontally k p) = height p.
Proof.
  unfold moveHorizontally, afterClampRight, afterClampLeft, steer.
  destruct (ArrowLeft k || KeyA k), (ArrowRight k || KeyD k);
    cbn [set_x set_vx x vx moveSpeed width height isGiant];
    match goal with |- context [clampLeft ?q] => destruct (clampLeft q) end;
    match goal with |- context [clampRight ?q] => destruct (clampRight q) end;
    cbn; auto.
Qed.

Lemma moveVertically_dims p :
  isGiant (moveVertically p) = isGiant p /\
  width (moveVertically p) = width p /\
  height (moveVertically p) = height p.
Proof. unfold moveVertically. destruct (isBoosting p); cbn; auto. Qed.

Lemma integrated_sized k e :
  sized (player e) -> sized (player (integrated k e)).
Proof.
  intros H. unfold integrated. cbn [player set_player set_platforms].
  destruct (moveHorizontally_dims k (player e)) as (A & B & C).
  destruct (moveVertically_dims (moveHorizontally k (player e))) as (A' & B' & C').
  eapply sized_ext; [| | |exact H]; congruence.
Qed.

Lemma beforeScroll_sized inp e :
  sized (player e) -> sized (player (beforeScroll inp e)).
Proof.
  intros H. unfold beforeScroll.
  apply (interactAll_inv (fun e => sized (player e))).
  - auto.
  - intros plat e0 H0 _. exact H0.
  - apply activatePowerUp_sized.
  - apply integrated_sized, H.
Qed.

Lemma scroll_sized cs d e : sized (player e) -> sized (player (scroll cs d e)).
Proof. unfold scroll. destruct (scrolls e); auto. Qed.

Lemma fallThrough_sized e : sized (player e) -> sized (player (fallThrough e)).
Proof.
  unfold fallThrough. destruct (fallsThrough e); auto.
  destruct (shieldCount (player e) >? 0)%Z; auto.
Qed.

Lemma updatePhysics_sized inp e :
  sized (player e) -> sized (player (updatePhysics inp e)).
Proof.
  intros H. apply fallThrough_sized, scroll_sized, beforeScroll_sized, H.
Qed.

Lemma handle_sized ev e : sized (player e) -> sized (player (handle ev e)).
Proof.
  intros H. destruct ev; cbn [handle].
  - apply (animate_inv (fun e => sized (player e))); auto.
    apply updatePhysics_sized.
  - unfold fireMultiplier. destruct (multiplierTimer e); exact H.
  - unfold fireGiant. destruct (giantTimer e); [apply giantExpired_sized|exact H].
  - unfold fireBooster. destruct (boosterTimer e); exact H.
  - destruct gameState; exact H.
  - unfold sized. cbn. split; reflexivity.
Qed.

Lemma run_sized evs : forall e, sized (player e) -> sized (player (run evs e)).
Proof.
  induction evs as [|ev rest IH]; intros e H; cbn [run]; [exact H|].
  apply IH, handle_sized, H.
Qed.

(** C6, as the code has it: the box of the player is [PLAYER_SIZE] square,
    and exactly twice that while Giant is active, in every state the engine
    reaches; growing keeps the horizontal centre and the bottom edge of the
    box (the vertical centre moves up by half of [PLAYER_SIZE]), extending an
    active Giant moves nothing, expiry is the inverse of growing, and
    growing then expiring gives back the position. *)
Theorem giant_size_and_anchor :
  (forall evs c, sized (player (run evs (mounted c)))) /\
  (forall now e,
     isGiant (player e) = false -> sized (player e) ->
     let p := player e in
     let p' := player (activatePowerUp GIANT now e) in
     isGiant p' = true /\
     width p' == 2 * PLAYER_SIZE /\ height p' == 2 * PLAYER_SIZE /\
     centreX p' == centreX p /\ bottom p' == bottom p /\
     centreY p' == centreY p - PLAYER_SIZE / 2) /\
  (forall now e,
     isGiant (player e) = true ->
     let p := player e in
     let p' := player (activatePowerUp GIANT now e) in
     x p' = x p /\ y p' = y p /\ width p' = width p /\ height p' = height p) /\
  (forall p,
     isGiant p = true -> sized p ->
     let p' := giantExpired p in
     isGiant p' = false /\
     width p' == PLAYER_SIZE /\ height p' == PLAYER_SIZE /\
     centreX p' == centreX p /\ bottom p' == bottom p /\
     centreY p' == centreY p + PLAYER_SIZE / 2) /\
  (forall now e,
     isGiant (player e) = false -> sized (player e) ->
     let p := player e in
     let p' := giantExpired (player (activatePowerUp GIANT now e)) in
     x p' == x p /\ y p' == y p /\
     width p' == width p /\ height p' == height p).
Proof.
  split; [|split; [|split; [|split]]].
  - intros evs c. apply run_sized. unfold sized. cbn. split; reflexivity.
  - intros now e Hg Hs p p'. subst p p'. unfold sized in Hs. rewrite Hg in Hs.
    destruct Hs as [Hw Hh].
    unfold centreX, centreY, bottom.
    cbn [activatePowerUp player set_player set_giantTimer].
    rewrite Hg.
    cbn [negb set_giantEndTime set_isGiant set_x set_y set_width set_height
         isGiant x y width height].
    unfold PLAYER_SIZE, Qdiv in *. change (/ 2) with (1 # 2) in *.
    repeat split; lra.
  - intros now e Hg p p'. subst p p'.
    cbn [activatePowerUp player set_player set_giantTimer].
    rewrite Hg. cbn. auto.
  - intros p Hg Hs p'. subst p'. unfold sized in Hs. rewrite Hg in Hs.
    destruct Hs as [Hw Hh].
    unfold centreX, centreY, bottom, giantExpired.
    cbn [set_isGiant set_x set_y set_width set_height isGiant x y width height].
    unfold PLAYER_SIZE, Qdiv in *. change (/ 2) with (1 # 2) in *.
    repeat split; lra.
  - intros now e Hg Hs p p'. subst p p'. unfold sized in Hs. rewrite Hg in Hs.
    destruct Hs as [Hw Hh].
    cbn [activatePowerUp player set_player set_giantTimer].
    rewrite Hg. unfold giantExpired.
    cbn [negb set_giantEndTime set_isGiant set_x set_y set_width set_height
         isGiant x y width height].
    unfold PLAYER_SIZE, Qdiv in *. change (/ 2) with (1 # 2) in *.
    repeat split; lra.
Qed.

Lemma giant_size_and_anchor_witness :
  let g := activatePowerUp GIANT 0 freshRound in
  isGiant (player freshRound) = false /\ sized (player freshRound) /\
  centreX (player g) == centreX (player freshRound) /\
  bottom (player g) == bottom (player freshRound) /\
  isGiant (player g) = true /\ sized (player g) /\
  x (player (activatePowerUp GIANT 1000 g)) = x (player g) /\
  bottom (giantExpired (player g)) == bottom (player g) /\
  x (giantExpired (player g)) == x (player freshRound) /\
  y (giantExpired (player g)) == y (player freshRound).
Proof.
  intros g.
  assert (H1 : isGiant (player freshRound) = false) by reflexivity.
  assert (H2 : sized (player freshRound))
    by (split; vm_compute; reflexivity).
  assert (H3 : isGiant (player g) = true) by reflexivity.
  assert (H4 : sized (player g)) by (split; vm_compute; reflexivity).
  destruct giant_size_and_anchor as (_ & Grow & Extend & Expire & Trip).
  destruct (Grow 0 freshRound H1 H2) as (_ & _ & _ & Hx & Hb & _).
  destruct (Extend 1000 g H3) as (Ex & _).
  destruct (Expire (player g) H3 H4) as (_ & _ & _ & _ & Eb & _).
  destruct (Trip 0 freshRound H1 H2) as (Tx & Ty & _).
  split; [exact H1|]. split; [exact H2|]. split; [exact Hx|].
  split; [exact Hb|]. split; [exact H3|]. split; [exact H4|].
  split; [exact Ex|]. split; [exact Eb|]. split; [exact Tx|exact Ty].
Defined.

(** C6 as stated fails: growing moves the vertical centre of the box. *)
Lemma giant_growth_moves_centre :
  ~ (centreY (player (activatePowerUp GIANT 0 freshRound))
     == centreY (player freshRound)).
Proof. intros H. vm_compute in H. discriminate H. Qed.

(** ** Falling through the floor *)

Lemma gameOverCalls_emit c e :
  gameOverCalls (emit c e) =
  if isGameOver c then S (gameOverCalls e) else gameOverCalls e.
Proof. unfold gameOverCalls. cbn. destruct (isGameOver c); reflexivity. Qed.

Lemma moveHorizontally_keeps k p :
  baseJumpStrength (moveHorizontally k p) = baseJumpStrength p /\
  shieldCount (moveHorizontally k p) = shieldCount p /\
  isBoosting (moveHorizontally k p) = isBoosting p /\
  vy (moveHorizontally k p) = vy p /\
  y (moveHorizontally k p) = y p /\
  gravity (moveHorizontally k p) = gravity p.
Proof.
  unfold moveHorizontally, afterClampRight, afterClampLeft, steer.
  destruct (ArrowLeft k || KeyA k), (ArrowRight k || KeyD k);
    cbn [set_x set_vx x vx moveSpeed width height isGiant];
    match goal with |- context [clampLeft ?q] => destruct (clampLeft q) end;
    match goal with |- context [clampRight ?q] => destruct (clampRight q) end;
    cbn; auto 7.
Qed.

Lemma moveVertically_keeps p :
  baseJumpStrength (moveVertically p) = baseJumpStrength p /\
  shieldCount (moveVertically p) = shieldCount p /\
  isBoosting (moveVertically p) = isBoosting p /\
  x (moveVertically p) = x p /\
  vx (moveVertically p) = vx p.
Proof. unfold moveVertically. destruct (isBoosting p) eqn:E; cbn; rewrite ?E; auto 6. Qed.

Lemma activatePowerUp_carried n b t now e :
  carried n b e -> carried n b (activatePowerUp t now e).
Proof.
  unfold carried. intros [H1 H2].
  destruct t; cbn [activatePowerUp]; split; try exact H1; try exact H2.
  cbn [player set_player set_giantTimer set_giantEndTime set_isGiant
       baseJumpStrength].
  destruct (isGiant (player e)); cbn; exact H2.
Qed.

Lemma beforeFallThrough_carried inp e :
  carried (gameOverCalls e) (baseJumpStrength (player e))
    (beforeFallThrough inp e).
Proof.
  unfold beforeFallThrough.
  assert (H : carried (gameOverCalls e) (baseJumpStrength (player e))
                (beforeScroll inp e)).
  { unfold beforeScroll. apply interactAll_inv.
    - auto.
    - intros plat e0 [H1 H2] _. split; [exact H1|exact H2].
    - intros t now e0. apply activatePowerUp_carried.
    - unfold integrated, carried. cbn [player set_player set_platforms].
      destruct (moveHorizontally_keeps (keys inp) (player e)) as (A & _).
      destruct (moveVertically_keeps (moveHorizontally (keys inp) (player e)))
        as (A' & _).
      split; [reflexivity|congruence]. }
  unfold scroll. destruct (scrolls (beforeScroll inp e)); [|exact H].
  destruct H as [H1 H2]. split; [exact H1|exact H2].
Qed.

Lemma activatePowerUp_shield t now e :
  shieldCount (player e) = 1%Z ->
  shieldCount (player (activatePowerUp t now e)) = 1%Z.
Proof.
  intros H. destruct t; cbn [activatePowerUp]; try exact H; try reflexivity.
  cbn [player set_player set_giantTimer set_giantEndTime set_isGiant shieldCount].
  destruct (isGiant (player e)); cbn; exact H.
Qed.

Lemma beforeFallThrough_shield inp e :
  shieldCount (player e) = 1%Z ->
  shieldCount (player (beforeFallThrough inp e)) = 1%Z.
Proof.
  intros H. unfold beforeFallThrough.
  assert (H' : shieldCount (player (beforeScroll inp e)) = 1%Z).
  { unfold beforeScroll.
    apply (interactAll_inv (fun e => shieldCount (player e) = 1%Z)).
    - auto.
    - intros plat e0 H0 _. exact H0.
    - apply activatePowerUp_shield.
    - unfold integrated. cbn [player set_player set_platforms].
      destruct (moveHorizontally_keeps (keys inp) (player e)) as (_ & A & _).
      destruct (moveVertically_keeps (moveHorizontally (keys inp) (player e)))
        as (_ & A' & _).
      congruence. }
  unfold scroll. destruct (scrolls (beforeScroll inp e)); exact H'.
Qed.

Lemma fallThrough_shielded e :
  fallsThrough e = true -> (0 < shieldCount (player e))%Z ->
  shieldCount (player (fallThrough e)) = (shieldCount (player e) - 1)%Z /\
  vy (player (fallThrough e)) = baseJumpStrength (player e) * 1.5 /\
  gameOverCalls (fallThrough e) = gameOverCalls e.
Proof.
  intros F S. unfold fallThrough. rewrite F.
  replace (shieldCount (player e) >? 0)%Z with true
    by (symmetry; apply Z.gtb_lt; exact S).
  auto.
Qed.

Lemma fallThrough_unshielded e :
  fallsThrough e = true -> (shieldCount (player e) <= 0)%Z ->
  player (fallThrough e) = player e /\
  gameOverCalls (fallThrough e) = S (gameOverCalls e).
Proof.
  intros F S. unfold fallThrough. rewrite F.
  replace (shieldCount (player e) >? 0)%Z with false
    by (symmetry; rewrite Z.gtb_ltb; apply Z.ltb_ge; exact S).
  auto.
Qed.

Lemma fallThrough_above e :
  fallsThrough e = false -> fallThrough e = e.
Proof. intros F. unfold fallThrough. rewrite F. reflexivity. Qed.

(** C2: when the step finds the player below the floor and the step began
    with one shield, the step leaves no shield, sets [vy] to 1.5 times
    [baseJumpStrength] and does not call the round-end sink; when it finds
    the player below the floor with no shield, it calls the sink.  So a
    fall with one shield followed by a fall without one ends the round at
    the second. *)
Theorem shield_single_use :
  (forall inp e,
     fallsThrough (beforeFallThrough inp e) = true ->
     shieldCount (player e) = 1%Z ->
     let e' := updatePhysics inp e in
     shieldCount (player e') = 0%Z /\
     vy (player e') == 1.5 * baseJumpStrength (player e) /\
     gameOverCalls e' = gameOverCalls e) /\
  (forall inp e,
     fallsThrough (beforeFallThrough inp e) = true ->
     shieldCount (player (beforeFallThrough inp e)) = 0%Z ->
     let e' := updatePhysics inp e in
     shieldCount (player e') = 0%Z /\
     gameOverCalls e' = S (gameOverCalls e)) /\
  (forall inp1 inp2 e,
     let e1 := updatePhysics inp1 e in
     let e2 := updatePhysics inp2 e1 in
     fallsThrough (beforeFallThrough inp1 e) = true ->
     shieldCount (player e) = 1%Z ->
     fallsThrough (beforeFallThrough inp2 e1) = true ->
     shieldCount (player (beforeFallThrough inp2 e1)) = 0%Z ->
     gameOverCalls e1 = gameOverCalls e /\
     gameOverCalls e2 = S (gameOverCalls e)).
Proof.
  assert (A : forall inp e,
     fallsThrough (beforeFallThrough inp e) = true ->
     shieldCount (player e) = 1%Z ->
     shieldCount (player (updatePhysics inp e)) = 0%Z /\
     vy (player (updatePhysics inp e)) == 1.5 * baseJumpStrength (player e) /\
     gameOverCalls (updatePhysics inp e) = gameOverCalls e).
  { intros inp e F S.
    pose proof (beforeFallThrough_shield inp e S) as S'.
    destruct (beforeFallThrough_carried inp e) as [C1 C2].
    destruct (fallThrough_shielded _ F) as (R1 & R2 & R3); [lia|].
    unfold updatePhysics. rewrite R1, R2, R3, S', C1, C2.
    split; [reflexivity|]. split; [lra|reflexivity]. }
  assert (B : forall inp e,
     fallsThrough (beforeFallThrough inp e) = true ->
     shieldCount (player (beforeFallThrough inp e)) = 0%Z ->
     shieldCount (player (updatePhysics inp e)) = 0%Z /\
     gameOverCalls (updatePhysics inp e) = S (gameOverCalls e)).
  { intros inp e F S.
    destruct (beforeFallThrough_carried inp e) as [C1 C2].
    destruct (fallThrough_unshielded _ F) as (R1 & R2); [lia|].
    unfold updatePhysics. rewrite R1, R2, S, C1. auto. }
  split; [exact A|]. split; [exact B|].
  intros inp1 inp2 e e1 e2 F1 S1 F2 S2.
  destruct (A inp1 e F1 S1) as (_ & _ & G1).
  destruct (B inp2 e1 F2 S2) as (_ & G2).
  subst e1 e2. split; [exact G1|]. rewrite G2, G1. reflexivity.
Qed.

Lemma shield_single_use_witness :
  let e1 := updatePhysics idle fallingShielded in
  fallsThrough (beforeFallThrough idle fallingShielded) = true /\
  shieldCount (player fallingShielded) = 1%Z /\
  fallsThrough (beforeFallThrough idle e1) = true /\
  shieldCount (player (beforeFallThrough idle e1)) = 0%Z /\
  gameOverCalls e1 = gameOverCalls fallingShielded /\
  gameOverCalls (updatePhysics idle e1) = S (gameOverCalls fallingShielded).
Proof.
  intros e1.
  assert (H1 : fallsThrough (beforeFallThrough idle fallingShielded) = true)
    by (vm_compute; reflexivity).
  assert (H2 : shieldCount (player fallingShielded) = 1%Z) by reflexivity.
  assert (H3 : fallsThrough (beforeFallThrough idle e1) = true)
    by (vm_compute; reflexivity).
  assert (H4 : shieldCount (player (beforeFallThrough idle e1)) = 0%Z)
    by (vm_compute; reflexivity).
  split; [exact H1|]. split; [exact H2|]. split; [exact H3|].
  split; [exact H4|].
  exact (proj2 (proj2 shield_single_use) idle idle fallingShielded H1 H2 H3 H4).
Defined.

(** ** The end of a round *)

Lemma animate_not_playing gs now inputs e :
  gs <> PLAYING ->
  animate gs now inputs e
  = set_lastTime now (if Qeq_bool (lastTime e) 0 then set_lastTime now e else e).
Proof. intros H. unfold animate. destruct gs; [reflexivity|congruence|reflexivity]. Qed.

(** C1, as the code has it: a physics step calls the round-end sink once
    when it finds the player below the floor without a shield, and not
    otherwise; a frame of a host that does not show the game as PLAYING runs
    no physics step and leaves player, platforms, score and sinks alone.
    Nothing stops the remaining steps of the frame in which the sink was
    called. *)
Theorem round_end_per_step :
  (forall inp e,
     let m := beforeFallThrough inp e in
     fallsThrough m = true -> shieldCount (player m) = 0%Z ->
     gameOverCalls (updatePhysics inp e) = S (gameOverCalls e)) /\
  (forall inp e,
     let m := beforeFallThrough inp e in
     fallsThrough m = false \/ (0 < shieldCount (player m))%Z ->
     gameOverCalls (updatePhysics inp e) = gameOverCalls e) /\
  (forall gs now inputs e,
     gs <> PLAYING ->
     let e' := animate gs now inputs e in
     frameCount e' = frameCount e /\ player e' = player e /\
     platforms e' = platforms e /\ score e' = score e /\
     calls e' = calls e).
Proof.
  split; [|split].
  - intros inp e m F S.
    destruct (beforeFallThrough_carried inp e) as [C1 _].
    destruct (fallThrough_unshielded m F) as (_ & R); [lia|].
    unfold updatePhysics. fold m. rewrite R. f_equal. exact C1.
  - intros inp e m H.
    destruct (beforeFallThrough_carried inp e) as [C1 _]. fold m in C1.
    unfold updatePhysics. fold m.
    destruct (fallsThrough m) eqn:F.
    + destruct H as [H|H]; [discriminate|].
      destruct (fallThrough_shielded m F H) as (_ & _ & R). congruence.
    + rewrite (fallThrough_above m F). exact C1.
  - intros gs now inputs e H e'. subst e'.
    rewrite (animate_not_playing gs now inputs e H).
    destruct (Qeq_bool (lastTime e) 0); cbn; auto.
Qed.

Lemma round_end_per_step_witness :
  let e1 := updatePhysics idle fallingShielded in
  fallsThrough (beforeFallThrough idle e1) = true /\
  shieldCount (player (beforeFallThrough idle e1)) = 0%Z /\
  gameOverCalls (updatePhysics idle e1) = S (gameOverCalls e1) /\
  fallsThrough (beforeFallThrough idle freshRound) = false /\
  gameOverCalls (updatePhysics idle freshRound) = gameOverCalls freshRound /\
  GAME_OVER <> PLAYING /\
  frameCount (animate GAME_OVER 5000 (fun _ => idle) e1) = frameCount e1.
Proof.
  intros e1.
  assert (H1 : fallsThrough (beforeFallThrough idle e1) = true)
    by (vm_compute; reflexivity).
  assert (H2 : shieldCount (player (beforeFallThrough idle e1)) = 0%Z)
    by (vm_compute; reflexivity).
  assert (H3 : fallsThrough (beforeFallThrough idle freshRound) = false)
    by (vm_compute; reflexivity).
  assert (H4 : GAME_OVER <> PLAYING) by discriminate.
  destruct round_end_per_step as (A & B & C).
  split; [exact H1|]. split; [exact H2|].
  split; [exact (A idle e1 H1 H2)|]. split; [exact H3|].
  split; [exact (B idle freshRound (or_introl H3))|]. split; [exact H4|].
  exact (proj1 (C GAME_OVER 5000 (fun _ => idle) e1 H4)).
Defined.

Lemma aboutToFall_reached :
  summary (run (framesLeft 47 29 1500) freshRound) = summary aboutToFall.
Proof. vm_compute. reflexivity. Qed.

(** C1 as stated fails: the state [aboutToFall] is reached in a round; its
    next frame, 47 ms later, runs three physics steps and calls the
    round-end sink in the second and again in the third. *)
Lemma round_end_called_twice :
  let after := animate PLAYING 2863 (fun _ => steeringLeft) aboutToFall in
  gameOverCalls aboutToFall = 0%nat /\
  frameCount after = (3 + frameCount aboutToFall)%nat /\
  gameOverCalls after = 2%nat.
Proof. vm_compute. auto. Qed.

(** ** The wall clamp *)

Lemma steer_width k p : width (steer k p) = width p.
Proof.
  unfold steer.
  destruct (ArrowLeft k || KeyA k), (ArrowRight k || KeyD k); reflexivity.
Qed.

Lemma afterClampLeft_spec q :
  width (afterClampLeft q) = width q /\
  0 <= x (afterClampLeft q) /\
  (clampLeft q = true -> vx (afterClampLeft q) = 0).
Proof.
  unfold afterClampLeft. destruct (clampLeft q) eqn:L.
  - cbn. repeat split; first [lra | discriminate | reflexivity].
  - unfold clampLeft in L. apply Qltb_ge in L.
    split; [reflexivity|]. split; [exact L|discriminate].
Qed.

Lemma afterClampRight_spec q :
  width q <= CANVAS_WIDTH -> 0 <= x q ->
  width (afterClampRight q) = width q /\
  0 <= x (afterClampRight q) /\
  x (afterClampRight q) <= CANVAS_WIDTH - width q /\
  (clampRight q = true -> vx (afterClampRight q) = 0) /\
  (clampRight q = false -> vx (afterClampRight q) = vx q).
Proof.
  intros Hw Hx. unfold afterClampRight. destruct (clampRight q) eqn:R.
  - cbn. repeat split; first [lra | discriminate | reflexivity].
  - unfold clampRight in R. apply Qgtb_le in R.
    repeat split; first [lra | discriminate | reflexivity].
Qed.

Lemma moveHorizontally_clamped k p :
  width p <= CANVAS_WIDTH ->
  let p' := moveHorizontally k p in
  width p' = width p /\ isGiant p' = isGiant p /\
  0 <= x p' /\ x p' <= CANVAS_WIDTH - width p' /\
  (clampTriggers k p = true -> vx p' == 0).
Proof.
  intros Hw p'. subst p'.
  destruct (moveHorizontally_dims k p) as (Hg & Hw' & _).
  rewrite Hw', Hg. split; [reflexivity|]. split; [reflexivity|].
  unfold moveHorizontally, clampTriggers.
  pose proof (steer_width k p) as Hs. revert Hs.
  generalize (steer k p). intros q Hq.
  destruct (afterClampLeft_spec q) as (A1 & A2 & A3).
  destruct (afterClampRight_spec (afterClampLeft q)) as (B1 & B2 & B3 & B4 & B5);
    [rewrite A1, Hq; exact Hw|exact A2|].
  rewrite A1, Hq in B3.
  split; [exact B2|]. split; [exact B3|].
  intros T. destruct (clampRight (afterClampLeft q)) eqn:R.
  - rewrite B4 by reflexivity. reflexivity.
  - rewrite B5 by reflexivity. rewrite orb_false_r in T.
    rewrite (A3 T). reflexivity.
Qed.

Lemma activatePowerUp_anchored x0 w0 g0 vx0 t now e :
  anchored x0 w0 g0 vx0 e -> anchored x0 w0 g0 vx0 (activatePowerUp t now e).
Proof.
  unfold anchored. intros [Hv Hx].
  destruct t; cbn [activatePowerUp]; try (split; [exact Hv|exact Hx]).
  cbn [player set_player set_giantTimer set_giantEndTime set_isGiant
       isGiant vx x width].
  destruct (isGiant (player e)) eqn:G; cbn [negb].
  - split; [exact Hv|]. destruct Hx as [(A & B & C)|(A & _)]; auto.
  - cbn [set_x set_y set_width set_height vx].
    split; [exact Hv|].
    destruct Hx as [(A & B & C)|(A & B)]; [|discriminate].
    right. split; [symmetry; exact A|reflexivity].
Qed.

Lemma beforeScroll_anchored inp e :
  let p0 := moveHorizontally (keys inp) (player e) in
  anchored (x p0) (width p0) (isGiant p0) (vx p0) (beforeScroll inp e).
Proof.
  intros p0. unfold beforeScroll. apply interactAll_inv.
  - auto.
  - intros plat e0 [Hv Hx] _. split.
    + intros H. cbn. rewrite (Hv H). reflexivity.
    + exact Hx.
  - intros t now e0. apply activatePowerUp_anchored.
  - unfold integrated, anchored. cbn [player set_player set_platforms].
    fold p0.
    destruct (moveVertically_keeps p0) as (_ & _ & _ & A & B).
    destruct (moveVertically_dims p0) as (C & D & _).
    rewrite A, B, C, D. split; [intros H; exact H|left; auto].
Qed.

Lemma scroll_horizontal cs d e :
  x (player (scroll cs d e)) = x (player e) /\
  vx (player (scroll cs d e)) = vx (player e) /\
  width (player (scroll cs d e)) = width (player e) /\
  isGiant (player (scroll cs d e)) = isGiant (player e).
Proof. unfold scroll. destruct (scrolls e); cbn; auto. Qed.

Lemma fallThrough_horizontal e :
  x (player (fallThrough e)) = x (player e) /\
  vx (player (fallThrough e)) = vx (player e) /\
  width (player (fallThrough e)) = width (player e) /\
  isGiant (player (fallThrough e)) = isGiant (player e).
Proof.
  unfold fallThrough. destruct (fallsThrough e); [|auto].
  destruct (shieldCount (player e) >? 0)%Z; cbn; auto.
Qed.

(** C5, as the code has it: for every [vx] and every width that fits the
    world, the clamp stage leaves [x] in [[0, worldWidth - width]], and so
    does the whole step unless the player grows to Giant in it; [vx] is 0
    after a step in which the clamp fired. *)
Theorem clamp_unless_growing :
  (forall k p,
     width p <= CANVAS_WIDTH ->
     let p' := moveHorizontally k p in
     0 <= x p' /\ x p' <= CANVAS_WIDTH - width p' /\
     (clampTriggers k p = true -> vx p' == 0)) /\
  (forall inp e,
     width (player e) <= CANVAS_WIDTH ->
     let p' := player (updatePhysics inp e) in
     (isGiant p' = isGiant (player e) ->
      0 <= x p' /\ x p' <= CANVAS_WIDTH - width p') /\
     (clampTriggers (keys inp) (player e) = true -> vx p' == 0)).
Proof.
  split.
  - intros k p Hw p'.
    destruct (moveHorizontally_clamped k p Hw) as (_ & _ & H). exact H.
  - intros inp e Hw p'. subst p'.
    destruct (moveHorizontally_clamped (keys inp) (player e) Hw)
      as (W0 & G0 & L & R & V).
    destruct (beforeScroll_anchored inp e) as [Hv Hx].
    unfold updatePhysics, beforeFallThrough.
    destruct (fallThrough_horizontal
                (scroll (score e) (draws inp) (beforeScroll inp e)))
      as (F1 & F2 & F3 & F4).
    destruct (scroll_horizontal (score e) (draws inp) (beforeScroll inp e))
      as (S1 & S2 & S3 & S4).
    rewrite F1, F2, F3, F4, S1, S2, S3, S4. split.
    + intros G. destruct Hx as [(A & B & C)|(A & B)].
      * rewrite B, C. split; [exact L|exact R].
      * rewrite G0 in A. congruence.
    + intros T. apply Hv, V, T.
Qed.

Lemma clamp_unless_growing_witness :
  width (player fallingShielded) <= CANVAS_WIDTH /\
  clampTriggers (keys steeringLeft) (player fallingShielded) = true /\
  vx (moveHorizontally (keys steeringLeft) (player fallingShielded)) == 0 /\
  isGiant (player (updatePhysics steeringLeft fallingShielded))
  = isGiant (player fallingShielded) /\
  0 <= x (player (updatePhysics steeringLeft fallingShielded)) /\
  vx (player (updatePhysics steeringLeft fallingShielded)) == 0.
Proof.
  assert (H1 : width (player fallingShielded) <= CANVAS_WIDTH)
    by (vm_compute; discriminate).
  assert (H2 : isGiant (player (updatePhysics steeringLeft fallingShielded))
               = isGiant (player fallingShielded))
    by (vm_compute; reflexivity).
  assert (H3 : clampTriggers (keys steeringLeft) (player fallingShielded) = true)
    by (vm_compute; reflexivity).
  destruct clamp_unless_growing as (Stage & Step).
  destruct (Stage (keys steeringLeft) (player fallingShielded) H1)
    as (_ & _ & V).
  destruct (Step steeringLeft fallingShielded H1) as [A B].
  split; [exact H1|]. split; [exact H3|]. split; [exact (V H3)|].
  split; [exact H2|].
  split; [exact (proj1 (A H2))|exact (B H3)].
Defined.

(** C5 as stated fails: at the left wall, a step that collects a Giant
    token ends with the player 20 px outside the world. *)
Lemma giant_pickup_leaves_world :
  x (player besideGiantToken) == 0 /\
  x (player (updatePhysics idle besideGiantToken)) == -20 /\
  ~ (0 <= x (player (updatePhysics idle besideGiantToken))).
Proof.
  split; [reflexivity|]. split; [vm_compute; reflexivity|].
  intros H. vm_compute in H. apply H. reflexivity.
Qed.

(** ** Landing *)








Lemma updatePhysics_bounces inp e :
  bounces (updatePhysics inp e) = bounces (beforeScroll inp e).
Proof.
  unfold updatePhysics, beforeFallThrough, fallThrough, scroll.
  destruct (scrolls (beforeScroll inp e));
    match goal with |- context [fallsThrough ?a] => destruct (fallsThrough a) end;
    try reflexivity;
    match goal with |- context [(?a >? 0)%Z] => destruct (a >? 0)%Z end;
    reflexivity.
Qed.








(** ** The generator *)

(** Above a score of 500 the width does not depend on the random scale. *)
Lemma baseWidth_above_500 s d d' :
  (500 < s)%Z -> baseWidth s d = baseWidth s d'.
Proof.
  intros H. unfold baseWidth.
  replace (s >? 500)%Z with true by (symmetry; apply Z.gtb_lt; exact H).
  reflexivity.
Qed.

Lemma baseWidth_upto_500 s d :
  (s <= 500)%Z -> baseWidth s d == PLATFORM_WIDTH * (0.8 + dDifficulty d * 0.4).
Proof.
  intros H. unfold baseWidth.
  replace (s >? 500)%Z with false
    by (symmetry; rewrite Z.gtb_ltb; apply Z.ltb_ge; exact H).
  reflexivity.
Qed.

(** The centre chosen for a moving platform keeps the oscillation of a
    platform of the width [w] it is given on the screen. *)
Lemma centreFor_on_screen x0 mr w :
  0 <= mr -> 2 * mr + w <= CANVAS_WIDTH ->
  0 <= centreFor x0 mr w - mr /\ centreFor x0 mr w + mr + w <= CANVAS_WIDTH.
Proof.
  intros Hm Hw. unfold centreFor.
  destruct (Qltb (x0 - mr) 0) eqn:L.
  - destruct (Qgtb (mr + mr + w) CANVAS_WIDTH) eqn:R.
    + apply Qgtb_gt in R. lra.
    + apply Qgtb_le in R. lra.
  - apply Qltb_ge in L.
    destruct (Qgtb (x0 + mr + w) CANVAS_WIDTH) eqn:R.
    + lra.
    + apply Qgtb_le in R. lra.
Qed.

(** C7 at a failing input: at a score of 1501, with the draws
    [wideMovingDraws] above a platform at x = 300, the generator makes a
    moving platform whose oscillation starts on the screen but reaches
    past its right edge, and which overhangs that edge already when it is
    created: the centre was chosen for the width of 83.979 that the two
    re-randomisations then enlarge. *)
Theorem moving_platform_overhangs :
  let q := generate 1501 wideMovingDraws referencePlatform in
  isMoving q = true /\
  baseWidth 1501 wideMovingDraws == 83.979 /\
  exists c r,
    initialX q = Some c /\ moveRange q = Some r /\
    c == 265.521 /\ r == 50.5 /\ px q == c /\
    0 <= c - r /\
    c + r + baseWidth 1501 wideMovingDraws <= CANVAS_WIDTH /\
    CANVAS_WIDTH < c + r + pwidth q /\
    CANVAS_WIDTH < px q + pwidth q.
Proof.
  cbv zeta. split; [vm_compute; reflexivity|].
  split; [vm_compute; reflexivity|].
  eexists. eexists.
  split; [vm_compute; reflexivity|]. split; [vm_compute; reflexivity|].
  repeat split; vm_compute; (reflexivity || discriminate).
Qed.

(** C8 at a failing input: at a score of 600 the new platform is 102.9
    wide, [PLATFORM_WIDTH * 0.98], whatever the random scale; with the
    scale 0.9 the claim asks for [PLATFORM_WIDTH * 0.9 * 0.98].  At a score
    of 400 the same draws give [PLATFORM_WIDTH * 0.9]. *)
Theorem shrink_overwrites_random_scale :
  0.8 + dDifficulty narrowDraws * 0.4 == 0.9 /\
  pwidth (generate 600 narrowDraws referencePlatform) == 102.9 /\
  pwidth (generate 600 plainDraws referencePlatform) == 102.9 /\
  ~ (pwidth (generate 600 narrowDraws referencePlatform)
     == PLATFORM_WIDTH * 0.9 * (1 - Qmin ((600 - 500) / 5000) 0.5)) /\
  pwidth (generate 400 narrowDraws referencePlatform) == PLATFORM_WIDTH * 0.9.
Proof.
  split; [vm_compute; reflexivity|]. split; [vm_compute; reflexivity|].
  split; [vm_compute; reflexivity|].
  split; [intros H; vm_compute in H; discriminate H|vm_compute; reflexivity].
Qed.


(** * Further properties of the engine *)

(** ** The tier table *)

(** X1: the multiplier of the tier never goes down when the score goes up, and
    it is one of the five of the table. *)
Theorem tier_multiplier_monotone s s' :
  (s <= s')%Z ->
  multiplier (getCurrentTier s) <= multiplier (getCurrentTier s') /\
  (tmin (getCurrentTier s) <= tmin (getCurrentTier s'))%Z /\
  In (multiplier (getCurrentTier s)) [1; 1.5; 2; 3; 5].
Proof.
  intros H.
  destruct (getCurrentTier_cases s) as [[R E]|[[R E]|[[R E]|[[R E]|[R E]]]]];
  destruct (getCurrentTier_cases s') as [[R' E']|[[R' E']|[[R' E']|[[R' E']|[R' E']]]]];
    try lia; rewrite E, E'; cbn [tierAt nth SCORE_TIERS multiplier tmin];
    (split; [unfold Qle; cbn; lia|split; [lia|cbn; auto 6]]).
Qed.

Lemma tier_multiplier_monotone_witness :
  (2600 <= 5200)%Z /\
  multiplier (getCurrentTier 2600) <= multiplier (getCurrentTier 5200).
Proof.
  assert (H : (2600 <= 5200)%Z) by lia.
  split; [exact H|exact (proj1 (tier_multiplier_monotone 2600 5200 H))].
Defined.

(** ** Moving platforms *)

Lemma movePlatform_static q : moves q = false -> movePlatform q = q.
Proof.
  unfold moves, movePlatform.
  destruct (isMoving q); [|reflexivity].
  destruct (pMoveSpeed q) as [sp|]; [|reflexivity].
  destruct (initialX q); [|reflexivity].
  destruct (moveRange q); [|reflexivity].
  cbn [andb]. intros ->. reflexivity.
Qed.

Lemma moves_fields q :
  moves q = true ->
  isMoving q = true /\
  exists sp c r,
    pMoveSpeed q = Some sp /\ initialX q = Some c /\ moveRange q = Some r /\
    truthy sp = true.
Proof.
  unfold moves. destruct (isMoving q); [|discriminate].
  destruct (pMoveSpeed q) as [sp|]; [|discriminate].
  destruct (initialX q) as [c|]; [|discriminate].
  destruct (moveRange q) as [r|]; [|discriminate].
  cbn [andb]. intros H. split; [reflexivity|]. exists sp, c, r. auto.
Qed.

(** X2: a step of a moving platform leaves it inside the world, whatever its
    range, and a platform that is inside the world stays there; the step
    changes [x] and the sign of the speed only. *)
Theorem movePlatform_in_world q :
  pwidth q <= CANVAS_WIDTH ->
  (moves q = true \/ inWorld q -> inWorld (movePlatform q)) /\
  py (movePlatform q) = py q /\
  pwidth (movePlatform q) = pwidth q /\
  powerUp (movePlatform q) = powerUp q /\
  initialX (movePlatform q) = initialX q /\
  moveRange (movePlatform q) = moveRange q /\
  (forall sp, pMoveSpeed q = Some sp ->
     exists sp', pMoveSpeed (movePlatform q) = Some sp' /\
                 Qabs sp' == Qabs sp).
Proof.
  intros Hw. destruct (moves q) eqn:M.
  - destruct (moves_fields q M) as (Hm & sp & c & r & Hs & Hc & Hr & Ht).
    unfold movePlatform, inWorld. rewrite Hm, Hs, Hc, Hr, Ht.
    cbn [px py pwidth powerUp initialX moveRange pMoveSpeed set_px set_pMoveSpeed].
    rewrite ?Hc, ?Hr.
    split; [|do 5 (split; [reflexivity|])].
    + intros _.
      destruct (Qltb (px q + sp) 0) eqn:L.
      * destruct (Qgtb (0 + pwidth q) CANVAS_WIDTH) eqn:R;
          [|apply Qgtb_le in R]; lra.
      * apply Qltb_ge in L.
        destruct (Qgtb (px q + sp + pwidth q) CANVAS_WIDTH) eqn:R;
          [|apply Qgtb_le in R]; lra.
    + intros sp0 E. injection E as <-. eexists. split; [reflexivity|].
      destruct (Qgtb (px q + sp) (c + r) || Qltb (px q + sp) (c - r));
        destruct (Qltb (px q + sp) 0);
        match goal with |- context [Qgtb ?a CANVAS_WIDTH] =>
          destruct (Qgtb a CANVAS_WIDTH) end;
        rewrite ?Qabs_opp, ?(Qabs_pos (Qabs _)) by apply Qabs_nonneg;
        rewrite ?Qabs_opp; reflexivity.
  - rewrite (movePlatform_static q M).
    split; [intros [H|H]; [discriminate|exact H]|].
    do 5 (split; [reflexivity|]).
    intros sp E. exists sp. split; [exact E|reflexivity].
Qed.

Lemma movePlatform_in_world_witness :
  let q := generate 1501 wideMovingDraws referencePlatform in
  pwidth q <= CANVAS_WIDTH /\ moves q = true /\ ~ inWorld q /\
  inWorld (movePlatform q).
Proof.
  intros q.
  assert (H1 : pwidth q <= CANVAS_WIDTH) by (vm_compute; discriminate).
  assert (H2 : moves q = true) by (vm_compute; reflexivity).
  split; [exact H1|]. split; [exact H2|]. split.
  - intros [_ H]. vm_compute in H. apply H. reflexivity.
  - exact (proj1 (movePlatform_in_world q H1) (or_introl H2)).
Defined.

(** X3: between the walls a moving platform oscillates: it stays within its
    range or at most one step beyond it, on its way back. *)
Theorem movePlatform_oscillates q sp c r :
  isMoving q = true ->
  pMoveSpeed q = Some sp -> initialX q = Some c -> moveRange q = Some r ->
  0 <= r ->
  0 <= c - r - Qabs sp ->
  c + r + Qabs sp + pwidth q <= CANVAS_WIDTH ->
  oscillating q -> oscillating (movePlatform q).
Proof.
  intros Hm Hs Hc Hr H0 HL HR.
  unfold oscillating, movePlatform. rewrite Hm, Hs, Hc, Hr.
  destruct (truthy sp) eqn:T; [|rewrite Hs, Hc, Hr; auto].
  cbn [px pwidth initialX moveRange pMoveSpeed set_px set_pMoveSpeed].
  rewrite Hc, Hr.
  assert (A : Qabs sp == sp \/ Qabs sp == - sp).
  { apply (Qabs_case sp (fun a => a == sp \/ a == - sp)); intros _;
      [left|right]; reflexivity. }
  pose proof (Qabs_nonneg sp) as N.
  intros O.
  assert (L : Qltb (px q + sp) 0 = false).
  { apply Qltb_ge. destruct A as [A|A],
      O as [[O1 O2]|[(O1 & O2 & O3)|(O1 & O2 & O3)]]; lra. }
  rewrite L.
  assert (R : Qgtb (px q + sp + pwidth q) CANVAS_WIDTH = false).
  { apply Qgtb_le. destruct A as [A|A],
      O as [[O1 O2]|[(O1 & O2 & O3)|(O1 & O2 & O3)]]; lra. }
  rewrite R.
  pose proof (Qabs_opp sp) as B.
  destruct (Qgtb (px q + sp) (c + r)) eqn:G; cbn [orb].
  - apply Qgtb_gt in G. right. left.
    destruct A as [A|A],
      O as [[O1 O2]|[(O1 & O2 & O3)|(O1 & O2 & O3)]]; repeat split; lra.
  - apply Qgtb_le in G.
    destruct (Qltb (px q + sp) (c - r)) eqn:S.
    + apply Qltb_lt in S. right. right.
      destruct A as [A|A],
        O as [[O1 O2]|[(O1 & O2 & O3)|(O1 & O2 & O3)]]; repeat split; lra.
    + apply Qltb_ge in S. left. split; lra.
Qed.

Lemma movePlatform_oscillates_witness :
  isMoving shuttle = true /\
  0 <= 60 /\ 0 <= 200 - 60 - Qabs 1.5 /\
  200 + 60 + Qabs 1.5 + pwidth shuttle <= CANVAS_WIDTH /\
  oscillating shuttle /\
  oscillating (movePlatform shuttle).
Proof.
  assert (H1 : isMoving shuttle = true) by reflexivity.
  assert (H2 : pMoveSpeed shuttle = Some 1.5) by reflexivity.
  assert (H3 : initialX shuttle = Some 200) by reflexivity.
  assert (H4 : moveRange shuttle = Some 60) by reflexivity.
  assert (H5 : 0 <= 60) by (vm_compute; discriminate).
  assert (H6 : 0 <= 200 - 60 - Qabs 1.5) by (vm_compute; discriminate).
  assert (H7 : 200 + 60 + Qabs 1.5 + pwidth shuttle <= CANVAS_WIDTH)
    by (vm_compute; discriminate).
  assert (H8 : oscillating shuttle)
    by (left; split; vm_compute; discriminate).
  split; [exact H1|]. split; [exact H5|]. split; [exact H6|].
  split; [exact H7|]. split; [exact H8|].
  exact (movePlatform_oscillates shuttle 1.5 200 60 H1 H2 H3 H4 H5 H6 H7 H8).
Defined.

(** ** The generator *)

Lemma baseWidth_bounds cs d :
  inUnit (dDifficulty d) ->
  105 / 2 <= baseWidth cs d /\ baseWidth cs d < 126 /\
  ((500 < cs)%Z -> baseWidth cs d <= PLATFORM_WIDTH) /\
  ((1500 < cs)%Z -> baseWidth cs d <= 84).
Proof.
  intros [D0 D1]. unfold baseWidth, PLATFORM_WIDTH.
  destruct (Z.gtb_spec cs 500) as [H|H].
  - assert (Hq : 500 < inject_Z cs)
      by (change (inject_Z 500 < inject_Z cs); rewrite <- Zlt_Qlt; exact H).
    destruct (Qmin_cases ((inject_Z cs - 500) / 5000) 0.5) as [[A ->]|[A ->]];
      match goal with |- context [Qmax ?a 45] =>
        destruct (Qmax_cases a 45) as [[B ->]|[B ->]] end;
      unfold Qdiv in *; change (/ 5000) with (1 # 5000) in *;
      change (/ 2) with (1 # 2) in *;
      (split; [lra|split; [lra|split; [intros _; lra|]]]);
      intros H'; rewrite Zlt_Qlt in H'; change (inject_Z 1500) with 1500 in H'; lra.
  - unfold Qdiv; change (/ 2) with (1 # 2).
    split; [lra|split; [lra|split; intros H'; lia]].
Qed.

Lemma resize_bounds s w : 40 <= resize s w /\ resize s w <= 157.5.
Proof.
  unfold resize, PLATFORM_WIDTH.
  match goal with |- context [Qmin ?a ?b] =>
    destruct (Qmin_cases a b) as [[A ->]|[A ->]] end;
    match goal with |- context [Qmax 40 ?a] =>
      destruct (Qmax_cases 40 a) as [[B ->]|[B ->]] end; lra.
Qed.

(** X13: a platform generated as static lies inside the world, 60 to 110 px
    above the topmost platform, and is between 52.5 and 126 px wide (at most
    [PLATFORM_WIDTH] once the score is above 500). *)
Theorem generated_static_on_screen cs d lastPlat :
  inUnit (dGap d) -> inUnit (dDifficulty d) ->
  becomesMoving cs d = false ->
  let q := generate cs d lastPlat in
  isMoving q = false /\ moves q = false /\ inWorld q /\
  105 / 2 <= pwidth q /\ pwidth q < 126 /\
  ((500 < cs)%Z -> pwidth q <= PLATFORM_WIDTH) /\
  pheight q = PLATFORM_HEIGHT /\
  py lastPlat - 110 < py q /\ py q <= py lastPlat - 60.
Proof.
  intros [G0 G1] HD M q. subst q.
  destruct (baseWidth_bounds cs d HD) as (W0 & W1 & W2 & _).
  unfold generate, moves, inWorld. rewrite M.
  cbn [isMoving pMoveSpeed initialX moveRange px py pwidth pheight andb].
  split; [reflexivity|]. split; [reflexivity|].
  revert W0 W1 W2. generalize (baseWidth cs d). intros w W0 W1 W2.
  unfold CANVAS_WIDTH, Qdiv in *. change (/ 2) with (1 # 2) in *.
  split.
  - match goal with |- context [Qmin ?a (400 - w)] =>
      destruct (Qmin_cases a (400 - w)) as [[A ->]|[A ->]] end;
      match goal with |- context [Qmax 0 ?a] =>
        destruct (Qmax_cases 0 a) as [[B ->]|[B ->]] end; lra.
  - repeat split; try lra. exact W2.
Qed.

Lemma generated_static_on_screen_witness :
  inUnit (dGap plainDraws) /\ inUnit (dDifficulty plainDraws) /\
  becomesMoving 600 plainDraws = false /\
  inWorld (generate 600 plainDraws referencePlatform).
Proof.
  assert (H1 : inUnit (dGap plainDraws))
    by (split; vm_compute; [discriminate|reflexivity]).
  assert (H2 : inUnit (dDifficulty plainDraws))
    by (split; vm_compute; [discriminate|reflexivity]).
  assert (H3 : becomesMoving 600 plainDraws = false) by reflexivity.
  split; [exact H1|]. split; [exact H2|]. split; [exact H3|].
  exact (proj1 (proj2 (proj2
    (generated_static_on_screen 600 plainDraws referencePlatform H1 H2 H3)))).
Defined.

(** X14: a platform is generated as moving only above a score of 1500; its
    speed is 1.5 px per step, 2.5 above 3000, its range 50 to 100 px, its
    width 40 to 157.5 px; it starts at its centre, with its left edge inside
    the world, and the oscillation of a platform of the width drawn before
    the re-randomisation fits the world. *)
Theorem generated_moving_shape cs d lastPlat :
  inUnit (dDifficulty d) -> inUnit (dRange d) ->
  becomesMoving cs d = true ->
  let q := generate cs d lastPlat in
  (1500 < cs)%Z /\ moves q = true /\
  40 <= pwidth q /\ pwidth q <= 157.5 /\
  exists sp c r,
    pMoveSpeed q = Some sp /\ initialX q = Some c /\ moveRange q = Some r /\
    Qabs sp == (if (cs >? 3000)%Z then 2.5 else 1.5) /\
    50 <= r /\ r < 100 /\
    px q = c /\ 0 <= c - r /\
    c + r + baseWidth cs d <= CANVAS_WIDTH /\
    px q < CANVAS_WIDTH.
Proof.
  intros HD [R0 R1] M q. subst q.
  assert (Hcs : (1500 < cs)%Z).
  { unfold becomesMoving in M. apply andb_true_iff in M as [M _].
    apply Z.gtb_lt in M. exact M. }
  destruct (baseWidth_bounds cs d HD) as (W0 & _ & _ & W3).
  specialize (W3 Hcs).
  split; [exact Hcs|].
  unfold generate, moves. rewrite M.
  cbn [isMoving pMoveSpeed initialX moveRange px py pwidth pheight andb].
  assert (Hsp : Qabs ((if Qgtb (dSign d) 0.5 then 1 else -1)
                      * (if (cs >? 3000)%Z then 2.5 else 1.5))
                == (if (cs >? 3000)%Z then 2.5 else 1.5)).
  { destruct (Qgtb (dSign d) 0.5), (cs >? 3000)%Z; reflexivity. }
  split.
  { unfold truthy. destruct (Qeq_bool _ 0) eqn:E; [|reflexivity].
    apply Qeq_bool_iff in E. rewrite E in Hsp.
    destruct (cs >? 3000)%Z; discriminate Hsp. }
  split; [apply resize_bounds|]. split; [apply resize_bounds|].
  eexists. eexists. eexists.
  split; [reflexivity|]. split; [reflexivity|]. split; [reflexivity|].
  split; [exact Hsp|].
  split; [lra|]. split; [lra|]. split; [reflexivity|].
  match goal with |- context [centreFor ?a ?b ?c] =>
    destruct (centreFor_on_screen a b c) as [C1 C2] end;
    [lra|unfold CANVAS_WIDTH; lra|].
  split; [exact C1|]. split; [exact C2|].
  unfold CANVAS_WIDTH in *. unfold Qdiv in W0. change (/ 2) with (1 # 2) in W0.
  lra.
Qed.

Lemma generated_moving_shape_witness :
  inUnit (dDifficulty wideMovingDraws) /\ inUnit (dRange wideMovingDraws) /\
  becomesMoving 1501 wideMovingDraws = true /\
  moves (generate 1501 wideMovingDraws referencePlatform) = true /\
  pwidth (generate 1501 wideMovingDraws referencePlatform) <= 157.5.
Proof.
  assert (H1 : inUnit (dDifficulty wideMovingDraws))
    by (split; vm_compute; [discriminate|reflexivity]).
  assert (H2 : inUnit (dRange wideMovingDraws))
    by (split; vm_compute; [discriminate|reflexivity]).
  assert (H3 : becomesMoving 1501 wideMovingDraws = true) by reflexivity.
  split; [exact H1|]. split; [exact H2|]. split; [exact H3|].
  destruct (generated_moving_shape 1501 wideMovingDraws referencePlatform
              H1 H2 H3) as (_ & A & _ & B & _).
  split; [exact A|exact B].
Defined.

(** ** The loop driver *)

Lemma activatePowerUp_loopFields t now e :
  loopFields (activatePowerUp t now e) = loopFields e.
Proof. destruct t; reflexivity. Qed.

Lemma updatePhysics_loopFields inp e :
  loopFields (updatePhysics inp e) = loopFields e.
Proof.
  unfold updatePhysics, beforeFallThrough.
  assert (H : loopFields (beforeScroll inp e) = loopFields e).
  { unfold beforeScroll.
    apply (interactAll_inv (fun e' => loopFields e' = loopFields e)).
    - auto.
    - intros plat e0 H _. exact H.
    - intros t now e0 H. rewrite activatePowerUp_loopFields. exact H.
    - reflexivity. }
  assert (H' : loopFields (scroll (score e) (draws inp) (beforeScroll inp e))
               = loopFields e).
  { unfold scroll. destruct (scrolls (beforeScroll inp e)); exact H. }
  unfold fallThrough.
  destruct (fallsThrough _); [|exact H'].
  destruct (shieldCount _ >? 0)%Z; exact H'.
Qed.

Lemma updatePhysics_accumulator inp e :
  accumulator (updatePhysics inp e) = accumulator e /\
  frameCount (updatePhysics inp e) = frameCount e /\
  lastReadyCount (updatePhysics inp e) = lastReadyCount e /\
  readyEndTime (updatePhysics inp e) = readyEndTime e.
Proof.
  pose proof (updatePhysics_loopFields inp e) as H. unfold loopFields in H.
  injection H as _ A B C D. auto.
Qed.






Section RunInvariant.
Variable P : Engine -> Prop.
Hypothesis P_animate : forall gs now inputs e,
  P e -> P (animate gs now inputs e).
Hypothesis P_fireMultiplier : forall e, P e -> P (fireMultiplier e).
Hypothesis P_fireGiant : forall e, P e -> P (fireGiant e).
Hypothesis P_fireBooster : forall e, P e -> P (fireBooster e).
Hypothesis P_startLoop : forall gs c now e, P e -> P (startLoop gs c now e).
Hypothesis P_resetGame : forall c now1 now2 e, P (resetGame c now1 now2 e).


End RunInvariant.




(** ** Invariants of the whole step *)

Lemma moveHorizontally_shape k p :
  exists x' vx', moveHorizontally k p = set_vx vx' (set_x x' p).
Proof.
  unfold moveHorizontally, afterClampRight, afterClampLeft, steer.
  destruct p.
  destruct (ArrowLeft k || KeyA k), (ArrowRight k || KeyD k);
    match goal with |- context [clampLeft ?q] => destruct (clampLeft q) end;
    match goal with |- context [clampRight ?q] => destruct (clampRight q) end;
    eexists; eexists; reflexivity.
Qed.

Lemma moveVertically_shape p :
  exists y' vy', moveVertically p = set_y y' (set_vy vy' p).
Proof.
  unfold moveVertically. destruct p.
  match goal with |- context [if ?b then _ else _] => destruct b end;
    eexists; eexists; reflexivity.
Qed.

Lemma integrated_shape k e :
  integrated k e
  = set_platforms (map movePlatform (platforms e))
      (set_player (moveVertically (moveHorizontally k (player e))) e).
Proof. reflexivity. Qed.

Lemma scroll_shape cs d e :
  scrolls e = true ->
  exists next sc,
    (score e <= sc)%Z /\
    scroll cs d e
    = set_platforms next
        (emit (ScoreUpdate sc)
           (set_score sc
              (set_player (set_y (CANVAS_HEIGHT / 2) (player e)) e))).
Proof.
  intros H. unfold scroll. rewrite H. eexists. eexists.
  split; [|reflexivity].
  pose proof (gainedScore_nonneg (CANVAS_HEIGHT / 2 - y (player e))
                (set_y (CANVAS_HEIGHT / 2) (player e)) (score e)
                (scrolls_diff e H)).
  lia.
Qed.

Section WholeStep.
Variable P : Engine -> Prop.
Hypothesis P_platforms : forall ps e, P e -> P (set_platforms ps e).
Hypothesis P_move : forall k e,
  P e ->
  P (set_player (moveVertically (moveHorizontally k (player e))) e).
Hypothesis P_bounce : forall plat e,
  P e -> landsOn (player e) plat = true ->
  P (emit (PlaySound SfxJump) (set_player (bounce plat (player e)) e)).
Hypothesis P_activate : forall t now e, P e -> P (activatePowerUp t now e).
Hypothesis P_scroll : forall sc e,
  P e -> scrolls e = true -> (score e <= sc)%Z ->
  P (emit (ScoreUpdate sc)
       (set_score sc (set_player (set_y (CANVAS_HEIGHT / 2) (player e)) e))).
Hypothesis P_shield : forall e,
  P e -> fallsThrough e = true -> (0 < shieldCount (player e))%Z ->
  P (emit (PlaySound SfxShield)
       (set_player
          (set_vy (baseJumpStrength (player e) * 1.5)
             (set_shieldCount (shieldCount (player e) - 1) (player e))) e)).
Hypothesis P_die : forall e,
  P e -> fallsThrough e = true ->
  P (emit GameOver (emit (PlaySound SfxDie) e)).

Lemma beforeScroll_inv inp e : P e -> P (beforeScroll inp e).
Proof.
  intros H. unfold beforeScroll.
  apply interactAll_inv; auto.
  rewrite integrated_shape. apply P_platforms, P_move, H.
Qed.

Lemma beforeFallThrough_inv inp e : P e -> P (beforeFallThrough inp e).
Proof.
  intros H. unfold beforeFallThrough.
  pose proof (beforeScroll_inv inp e H) as H1.
  destruct (scrolls (beforeScroll inp e)) eqn:S.
  - destruct (scroll_shape (score e) (draws inp) _ S) as (next & sc & L & E).
    rewrite E. apply P_platforms, P_scroll; assumption.
  - unfold scroll. rewrite S. exact H1.
Qed.

Lemma updatePhysics_inv inp e : P e -> P (updatePhysics inp e).
Proof.
  intros H. unfold updatePhysics.
  pose proof (beforeFallThrough_inv inp e H) as H1.
  unfold fallThrough.
  destruct (fallsThrough (beforeFallThrough inp e)) eqn:F; [|exact H1].
  destruct (Z.gtb_spec (shieldCount (player (beforeFallThrough inp e))) 0).
  - apply P_shield; [exact H1|exact F|lia].
  - apply P_die; assumption.
Qed.
End WholeStep.

Lemma moved_shape k p :
  exists x' vx' y' vy',
    moveVertically (moveHorizontally k p)
    = set_y y' (set_vy vy' (set_vx vx' (set_x x' p))).
Proof.
  destruct (moveHorizontally_shape k p) as (x' & vx' & E1).
  destruct (moveVertically_shape (moveHorizontally k p)) as (y' & vy' & E2).
  exists x', vx', y', vy'. rewrite E2, E1. reflexivity.
Qed.

(** Invariants of everything that happens to the engine. *)
Section Reachable.
Variable P : Engine -> Prop.
Hypothesis P_step : forall inp e, P e -> P (updatePhysics inp e).
Hypothesis P_frameCount : forall n e, P e -> P (set_frameCount n e).
Hypothesis P_accumulator : forall a e, P e -> P (set_accumulator a e).
Hypothesis P_lastTime : forall t e, P e -> P (set_lastTime t e).
Hypothesis P_go : forall e,
  P e -> (0 < lastReadyCount e)%Z ->
  P (set_lastReadyCount 0 (emit (PlaySound SfxStart) e)).
Hypothesis P_fireMultiplier : forall e, P e -> P (fireMultiplier e).
Hypothesis P_fireGiant : forall e, P e -> P (fireGiant e).
Hypothesis P_fireBooster : forall e, P e -> P (fireBooster e).
Hypothesis P_startLoop : forall gs c now e, P e -> P (startLoop gs c now e).
Hypothesis P_resetGame : forall c now1 now2 e, P (resetGame c now1 now2 e).

Lemma drain_reach budget : forall k inputs e,
  P e -> P (drain budget k inputs e).
Proof.
  induction budget as [|b IH]; intros k inputs e H; cbn [drain]; [exact H|].
  destruct (Qgeb (accumulator e) FIXED_TIMESTEP); [|exact H].
  destruct b as [|b']; [|apply IH]; auto.
Qed.

Lemma animate_reach gs now inputs e : P e -> P (animate gs now inputs e).
Proof.
  intros H. unfold animate.
  assert (H0 : P (if Qeq_bool (lastTime e) 0 then set_lastTime now e else e))
    by (destruct (Qeq_bool (lastTime e) 0); auto).
  revert H0.
  generalize (if Qeq_bool (lastTime e) 0 then set_lastTime now e else e).
  intros e0 H0.
  destruct gs; auto.
  match goal with |- context [if Qgtb ?a 0 then _ else _] =>
    destruct (Qgtb a 0) end; auto.
  apply drain_reach, P_accumulator.
  cbn [lastReadyCount set_lastTime].
  destruct (Z.gtb_spec (lastReadyCount e0) 0) as [G|G]; auto.
Qed.

Lemma round_reach evs : forall e, inRound evs -> P e -> P (run evs e).
Proof.
  unfold inRound.
  induction evs as [|ev rest IH]; intros e R H; cbn [run]; [exact H|].
  cbn [forallb] in R. apply andb_true_iff in R as [R1 R2].
  apply IH; [exact R2|].
  destruct ev; cbn [handle isReset negb] in *; try discriminate; auto.
  apply animate_reach, H.
Qed.

Lemma run_reach evs : forall e, P e -> P (run evs e).
Proof.
  induction evs as [|ev rest IH]; intros e H; cbn [run]; [exact H|].
  apply IH. destruct ev; cbn [handle]; auto. apply animate_reach, H.
Qed.
End Reachable.

(** ** What holds in every state the engine reaches *)

Ltac moved_player k e :=
  let Hs := fresh "Hs" in
  destruct (moved_shape k (player e)) as (? & ? & ? & ? & Hs); rewrite Hs.

Lemma fire_cases e :
  (fireMultiplier e = e \/
   fireMultiplier e
   = set_multiplierTimer None (set_player (multiplierExpired (player e)) e)) /\
  (fireGiant e = e \/
   fireGiant e = set_giantTimer None (set_player (giantExpired (player e)) e)) /\
  (fireBooster e = e \/
   fireBooster e
   = set_boosterTimer None (set_player (boosterExpired (player e)) e)).
Proof.
  unfold fireMultiplier, fireGiant, fireBooster.
  destruct (multiplierTimer e), (giantTimer e), (boosterTimer e); auto.
Qed.

(** X8: the shield charge is 0 or 1 in every state the engine reaches: shields
    do not stack and are never spent below 0. *)
Theorem shield_never_stacks evs c :
  shieldCount (player (run evs (mounted c))) = 0%Z \/
  shieldCount (player (run evs (mounted c))) = 1%Z.
Proof.
  apply (run_reach (fun e => shieldCount (player e) = 0%Z \/
                             shieldCount (player e) = 1%Z)); auto.
  - apply updatePhysics_inv; auto.
    + intros k e H. moved_player k e. exact H.
    + intros t now e H. destruct t; cbn [activatePowerUp]; auto.
      cbn [player set_player set_giantTimer set_giantEndTime set_isGiant
           shieldCount].
      destruct (isGiant (player e)); exact H.
    + intros e H _ S. cbn. lia.
  - intros e H. destruct (fire_cases e) as ([E|E] & _); rewrite E; exact H.
  - intros e H. destruct (fire_cases e) as (_ & [E|E] & _); rewrite E; exact H.
  - intros e H. destruct (fire_cases e) as (_ & _ & [E|E]); rewrite E; exact H.
  - intros gs c0 now e H. destruct gs; exact H.
Qed.

Lemma moveHorizontally_speed k p :
  speedBounded p -> speedBounded (moveHorizontally k p).
Proof.
  unfold speedBounded, moveHorizontally, afterClampRight, afterClampLeft, steer.
  intros (M & L & R).
  destruct (ArrowLeft k || KeyA k), (ArrowRight k || KeyD k);
    match goal with |- context [clampLeft ?q] => destruct (clampLeft q) end;
    match goal with |- context [clampRight ?q] => destruct (clampRight q) end;
    cbn [vx moveSpeed set_x set_vx]; unfold FRICTION; repeat split; lra.
Qed.

(** X5: the horizontal speed never exceeds four times the acceleration of the
    character (4.8 px per step for the yellow one), in every state the
    engine reaches. *)
Theorem horizontal_speed_bounded evs c :
  let p := player (run evs (mounted c)) in
  0 < moveSpeed p /\ - (4 * moveSpeed p) <= vx p /\ vx p <= 4 * moveSpeed p.
Proof.
  cbv zeta.
  apply (run_reach
           (fun e => 0 < moveSpeed (player e) /\
                     - (4 * moveSpeed (player e)) <= vx (player e) /\
                     vx (player e) <= 4 * moveSpeed (player e))); auto.
  - apply updatePhysics_inv; auto.
    + intros k e (M & H).
      destruct (moveHorizontally_speed k (player e)) as (_ & H1);
        [split; [lra|exact H]|].
      destruct (moveHorizontally_shape k (player e)) as (x' & vx' & E1).
      destruct (moveVertically_shape (moveHorizontally k (player e)))
        as (y' & vy' & E2).
      rewrite E2. cbn [player set_player moveSpeed vx set_y set_vy].
      split; [rewrite E1; exact M|].
      replace (moveSpeed (moveHorizontally k (player e)))
        with (moveSpeed (player e)) in * by (rewrite E1; reflexivity).
      exact H1.
    + intros plat e (M & L & R) _. cbn. repeat split; lra.
    + intros t now e H. destruct t; cbn [activatePowerUp]; auto.
      cbn [player set_player set_giantTimer set_giantEndTime set_isGiant
           moveSpeed vx].
      destruct (isGiant (player e)); exact H.
  - intros e H. destruct (fire_cases e) as ([E|E] & _); rewrite E; exact H.
  - intros e H. destruct (fire_cases e) as (_ & [E|E] & _); rewrite E; exact H.
  - intros e H. destruct (fire_cases e) as (_ & _ & [E|E]); rewrite E; exact H.
  - intros gs c0 now e H. destruct gs; exact H.
  - intros c0 now1 now2 e. destruct c0; cbn; repeat split; lra.
  - cbn. repeat split; lra.
Qed.

(** X4: with no key held, or with keys of both directions held, a step
    multiplies the horizontal speed by the friction or stops it at a wall:
    its magnitude does not grow. *)
Theorem friction_decays k p :
  (ArrowLeft k || KeyA k) = (ArrowRight k || KeyD k) ->
  Qabs (vx (moveHorizontally k p)) <= FRICTION * Qabs (vx p) /\
  (clampTriggers k p = false ->
   vx (moveHorizontally k p) == FRICTION * vx p).
Proof.
  intros K. pose proof (Qabs_nonneg (vx p)) as N.
  assert (F : Qabs (vx p * FRICTION) == FRICTION * Qabs (vx p)).
  { rewrite Qabs_Qmult. unfold FRICTION at 1.
    rewrite (Qabs_pos 0.8) by (unfold Qle; cbn; lia).
    unfold FRICTION. ring. }
  assert (Z0 : Qabs 0 <= FRICTION * Qabs (vx p))
    by (change (Qabs 0) with 0; unfold FRICTION; lra).
  unfold moveHorizontally, clampTriggers, afterClampRight, afterClampLeft, steer.
  rewrite K.
  destruct (ArrowRight k || KeyD k);
    cbn [vx moveSpeed set_x set_vx].
  - assert (C : vx p - moveSpeed p + moveSpeed p == vx p) by ring.
    match goal with |- context [clampLeft ?q] => destruct (clampLeft q) end;
    match goal with |- context [clampRight ?q] => destruct (clampRight q) end;
      cbn [vx set_x set_vx orb];
      (split; [try exact Z0|try discriminate]);
      try (rewrite C, F; apply Qle_refl);
      intros _; rewrite C; apply Qmult_comm.
  - match goal with |- context [clampLeft ?q] => destruct (clampLeft q) end;
    match goal with |- context [clampRight ?q] => destruct (clampRight q) end;
      cbn [vx set_x set_vx orb];
      (split; [try exact Z0|try discriminate]);
      try (rewrite F; apply Qle_refl);
      intros _; apply Qmult_comm.
Qed.

Lemma friction_decays_witness :
  (ArrowLeft noKeys || KeyA noKeys) = (ArrowRight noKeys || KeyD noKeys) /\
  Qabs (vx (moveHorizontally noKeys (player freshRound)))
  <= FRICTION * Qabs (vx (player freshRound)).
Proof.
  assert (H : (ArrowLeft noKeys || KeyA noKeys)
              = (ArrowRight noKeys || KeyD noKeys)) by reflexivity.
  split; [exact H|].
  exact (proj1 (friction_decays noKeys (player freshRound) H)).
Defined.

(** X9: in every state the engine reaches, each timed power-up is active
    exactly while its timer is pending, and the deadline of the timer is the
    end time recorded in the player. *)
Theorem timers_track_flags evs c : timersAgree (run evs (mounted c)).
Proof.
  apply (run_reach timersAgree); auto.
  - apply updatePhysics_inv.
    + intros ps e H. exact H.
    + intros k e H. unfold timersAgree.
      cbn [player set_player multiplierTimer giantTimer boosterTimer].
      moved_player k e. exact H.
    + intros plat e H _. exact H.
    + intros t now e (A & B & C). unfold timersAgree, agrees in *.
      destruct t; cbn [activatePowerUp]; try (repeat split; assumption).
      destruct (isGiant (player e)); cbn [negb andb]; repeat split; assumption.
    + intros sc e H _ _. exact H.
    + intros e H _ _. exact H.
    + intros e H _. exact H.
  - intros e (A & B & C). unfold timersAgree, agrees, fireMultiplier in *.
    destruct (multiplierTimer e) eqn:E; cbn; rewrite ?E; auto.
  - intros e (A & B & C). unfold timersAgree, agrees, fireGiant in *.
    destruct (giantTimer e) eqn:E; cbn; rewrite ?E; auto.
  - intros e (A & B & C). unfold timersAgree, agrees, fireBooster in *.
    destruct (boosterTimer e) eqn:E; cbn; rewrite ?E; auto.
  - intros gs c0 now e H. destruct gs; exact H.
  - intros c0 now1 now2 e. repeat split.
  - repeat split.
Qed.

(** ** The ready phase *)

Lemma starts_emit c e :
  starts (emit c e) = if isStart c then S (starts e) else starts e.
Proof. unfold starts. cbn. destruct (isStart c); reflexivity. Qed.

Lemma activatePowerUp_starts t now e :
  starts (activatePowerUp t now e) = starts e.
Proof. destruct t; reflexivity. Qed.

Lemma updatePhysics_starts inp e : starts (updatePhysics inp e) = starts e.
Proof.
  apply (updatePhysics_inv (fun e' => starts e' = starts e)); auto.
  intros t now e0 H. rewrite activatePowerUp_starts. exact H.
Qed.

(** X18: until the ready deadline a frame of a running game changes nothing but
    the time of the last frame: no physics step, no sound, no time added to
    the accumulator.  The deadline is 1500 ms after the reset. *)
Theorem ready_phase_is_idle now inputs e :
  now < readyEndTime e ->
  let e' := animate PLAYING now inputs e in
  player e' = player e /\ platforms e' = platforms e /\ score e' = score e /\
  calls e' = calls e /\ frameCount e' = frameCount e /\
  accumulator e' = accumulator e /\ lastTime e' = now /\
  forall c now1 now2,
    readyEndTime (resetGame c now1 now2 e) == now1 + 1500.
Proof.
  intros H e'. subst e'. unfold animate.
  destruct (Qeq_bool (lastTime e) 0);
    cbn [readyEndTime set_lastTime];
    (replace (Qgtb (readyEndTime e - now) 0) with true
       by (symmetry; apply Qgtb_gt; lra));
    repeat split; reflexivity.
Qed.

Lemma ready_phase_is_idle_witness :
  1000 < readyEndTime freshRound /\
  frameCount (animate PLAYING 1000 (fun _ => idle) freshRound)
  = frameCount freshRound.
Proof.
  assert (H : 1000 < readyEndTime freshRound) by (vm_compute; reflexivity).
  split; [exact H|].
  destruct (ready_phase_is_idle 1000 (fun _ => idle) freshRound H)
    as (_ & _ & _ & _ & A & _).
  exact A.
Defined.

(** X19: the start sound is played at most once in a round. *)
Theorem start_sound_once evs c now1 now2 e :
  inRound evs ->
  (starts (run evs (resetGame c now1 now2 e)) <= S (starts e))%nat.
Proof.
  intros R.
  assert (H : startPending (starts e) (run evs (resetGame c now1 now2 e))).
  { apply (round_reach (startPending (starts e))); auto.
    - intros inp e0 [A B]. unfold startPending.
      rewrite updatePhysics_starts.
      destruct (updatePhysics_accumulator inp e0) as (_ & _ & L & _).
      rewrite L. split; assumption.
    - intros e0 [A B] G. unfold startPending.
      cbn [lastReadyCount set_lastReadyCount].
      change (starts (set_lastReadyCount 0 (emit (PlaySound SfxStart) e0)))
        with (S (starts e0)).
      rewrite (B G). split; [lia|intros H; lia].
    - intros e0 H. destruct (fire_cases e0) as ([E|E] & _); rewrite E; exact H.
    - intros e0 H. destruct (fire_cases e0) as (_ & [E|E] & _); rewrite E; exact H.
    - intros e0 H. destruct (fire_cases e0) as (_ & _ & [E|E]); rewrite E; exact H.
    - intros gs c0 now e0 H. destruct gs; exact H.
    - split; [|intros _]; unfold starts; cbn; lia. }
  exact (proj1 H).
Qed.

Lemma start_sound_once_witness :
  inRound [Frame PLAYING 1600 (fun _ => idle); Frame PLAYING 1650 (fun _ => idle)] /\
  (starts (run [Frame PLAYING 1600 (fun _ => idle);
                Frame PLAYING 1650 (fun _ => idle)]
             (resetGame YELLOW 0 0 (mounted YELLOW)))
   <= S (starts (mounted YELLOW)))%nat.
Proof.
  assert (R : inRound [Frame PLAYING 1600 (fun _ => idle);
                       Frame PLAYING 1650 (fun _ => idle)]) by reflexivity.
  split; [exact R|].
  exact (start_sound_once _ YELLOW 0 0 (mounted YELLOW) R).
Defined.

(** ** Where the player can be *)

Lemma updatePhysics_midline inp e :
  CANVAS_HEIGHT / 2 <= y (player (updatePhysics inp e)).
Proof.
  unfold updatePhysics, beforeFallThrough.
  set (m := beforeScroll inp e).
  assert (H : CANVAS_HEIGHT / 2 <= y (player (scroll (score e) (draws inp) m))).
  { unfold scroll. destruct (scrolls m) eqn:S.
    - cbn. apply Qle_refl.
    - unfold scrolls in S. apply Qltb_ge in S. exact S. }
  unfold fallThrough.
  destruct (fallsThrough _); [|exact H].
  destruct (shieldCount _ >? 0)%Z; exact H.
Qed.

(** X7: after a physics step the top edge of the player is at the midline of
    the world or below it, and so it is in every state the engine
    reaches. *)
Theorem player_never_above_midline :
  (forall inp e, CANVAS_HEIGHT / 2 <= y (player (updatePhysics inp e))) /\
  (forall evs c, CANVAS_HEIGHT / 2 <= y (player (run evs (mounted c)))).
Proof.
  split; [exact updatePhysics_midline|].
  intros evs c.
  apply (run_reach (fun e => sized (player e) /\
                             CANVAS_HEIGHT / 2 <= y (player e))); auto.
  - intros inp e [S _]. split;
      [apply updatePhysics_sized, S|apply updatePhysics_midline].
  - intros e H. destruct (fire_cases e) as ([E|E] & _); rewrite E; exact H.
  - intros e [S H]. destruct (fire_cases e) as (_ & [E|E] & _); rewrite E;
      [split; assumption|].
    split; [apply giantExpired_sized|].
    unfold sized in S. unfold giantExpired.
    cbn [player set_player set_giantTimer y height set_isGiant set_y set_x
         set_width set_height].
    unfold PLAYER_SIZE in *.
    destruct (isGiant (player e)); destruct S as [_ Sh]; lra.
  - intros e H. destruct (fire_cases e) as (_ & _ & [E|E]); rewrite E; exact H.
  - intros gs c0 now e H. destruct gs; exact H.
  - intros c0 now1 now2 e. split; [split; reflexivity|].
    cbn. unfold CANVAS_HEIGHT. unfold Qle; cbn; lia.
  - split; [split; reflexivity|]. cbn. unfold Qle; cbn; lia.
Qed.

(** ** The booster *)

Lemma activatePowerUp_boosting t now e :
  isBoosting (player e) = true /\ vy (player e) = -12 ->
  isBoosting (player (activatePowerUp t now e)) = true /\
  vy (player (activatePowerUp t now e)) = -12.
Proof.
  intros H. destruct t; cbn [activatePowerUp]; try exact H.
  - cbn [player set_player set_giantTimer set_giantEndTime set_isGiant
         isBoosting vy].
    destruct (isGiant (player e)); exact H.
  - cbn. split; [reflexivity|exact (proj2 H)].
Qed.

(** X6: a step that starts while the booster is active lands on nothing and
    leaves the vertical speed at -12 when the platforms have been handled:
    gravity is not applied. *)
Theorem booster_overrides_gravity inp e :
  isBoosting (player e) = true ->
  bounces (updatePhysics inp e) = bounces e /\
  vy (player (beforeScroll inp e)) = -12 /\
  isBoosting (player (updatePhysics inp e)) = true.
Proof.
  intros B.
  assert (H : bounces (beforeScroll inp e) = bounces e /\
              isBoosting (player (beforeScroll inp e)) = true /\
              vy (player (beforeScroll inp e)) = -12).
  { unfold beforeScroll.
    apply (interactAll_inv
             (fun e' => bounces e' = bounces e /\
                        isBoosting (player e') = true /\
                        vy (player e') = -12)).
    - auto.
    - intros plat e0 (_ & B0 & _) L. unfold landsOn in L. rewrite B0 in L.
      rewrite andb_false_r in L. discriminate L.
    - intros t now e0 (H1 & H2).
      split; [destruct t; exact H1|apply activatePowerUp_boosting, H2].
    - rewrite integrated_shape. split; [reflexivity|].
      cbn [player set_player set_platforms].
      destruct (moveHorizontally_keeps (keys inp) (player e))
        as (_ & _ & K & _).
      unfold moveVertically. rewrite K, B.
      cbn [isBoosting vy set_y set_vy]. rewrite K, B. split; reflexivity. }
  destruct H as (H1 & H2 & H3).
  rewrite updatePhysics_bounces. split; [exact H1|]. split; [exact H3|].
  unfold updatePhysics, beforeFallThrough, fallThrough, scroll.
  destruct (scrolls (beforeScroll inp e));
    match goal with |- context [fallsThrough ?a] => destruct (fallsThrough a) end;
    try exact H2;
    match goal with |- context [(?a >? 0)%Z] => destruct (a >? 0)%Z end;
    exact H2.
Qed.

Lemma booster_overrides_gravity_witness :
  let e := activatePowerUp BOOSTER 0 overTwoPlatforms in
  isBoosting (player e) = true /\
  bounces (updatePhysics idle e) = bounces e.
Proof.
  intros e.
  assert (H : isBoosting (player e) = true) by reflexivity.
  split; [exact H|exact (proj1 (booster_overrides_gravity idle e H))].
Defined.

(** ** Tokens *)

Lemma pickups_emit c e :
  pickups (emit c e) = if isCollect c then S (pickups e) else pickups e.
Proof. unfold pickups. cbn. destruct (isCollect c); reflexivity. Qed.

Lemma activatePowerUp_pickups t now e :
  pickups (activatePowerUp t now e) = S (pickups e).
Proof. destruct t; reflexivity. Qed.

Lemma interact_tokens now plat e :
  (tokens [fst (interact now plat e)] + pickups (snd (interact now plat e))
   = tokens [plat] + pickups e)%nat /\
  py (fst (interact now plat e)) = py plat.
Proof.
  unfold interact, tokens.
  assert (J : forall e0, pickups (if landsOn (player e) plat
                 then emit (PlaySound SfxJump)
                        (set_player (bounce plat (player e)) e0)
                 else e0) = pickups e0)
    by (intros e0; destruct (landsOn (player e) plat); reflexivity).
  cbn [filter]. unfold hasToken at 2.
  destruct (powerUp plat) as [t|] eqn:T.
  - match goal with |- context [collects ?a plat] => destruct (collects a plat) end;
      cbn [fst snd filter hasToken powerUp set_powerUp List.length].
    + rewrite activatePowerUp_pickups, J. split; [lia|reflexivity].
    + unfold hasToken. rewrite T, J. split; reflexivity.
  - cbn [fst snd filter List.length]. unfold hasToken. rewrite T, J.
    split; reflexivity.
Qed.

Lemma tokens_one q : tokens [q] = if hasToken q then 1%nat else 0%nat.
Proof. unfold tokens. cbn. destruct (hasToken q); reflexivity. Qed.

Lemma tokens_cons q ps : tokens (q :: ps) = (tokens [q] + tokens ps)%nat.
Proof. unfold tokens. cbn. destruct (hasToken q); reflexivity. Qed.

Lemma interactFrom_tokens clk ps : forall i e,
  (tokens (fst (interactFrom clk i ps e)) + pickups (snd (interactFrom clk i ps e))
   = tokens ps + pickups e)%nat /\
  map py (fst (interactFrom clk i ps e)) = map py ps.
Proof.
  induction ps as [|plat rest IH]; intros i e; cbn [interactFrom].
  - split; reflexivity.
  - destruct (interact_tokens (clk i) plat e) as [H1 H1'].
    destruct (interact (clk i) plat e) as [plat' e1]. cbn [fst snd] in H1, H1'.
    destruct (IH (S i) e1) as [H2 H2'].
    destruct (interactFrom clk (S i) rest e1) as [rest' e2].
    cbn [fst snd] in *. cbn [map].
    rewrite (tokens_cons plat'), (tokens_cons plat), H1', H2'.
    split; [lia|reflexivity].
Qed.

Lemma movePlatform_token q :
  powerUp (movePlatform q) = powerUp q /\ py (movePlatform q) = py q.
Proof.
  unfold movePlatform.
  destruct (isMoving q); [|auto].
  destruct (pMoveSpeed q) as [sp|]; [|auto].
  destruct (initialX q); [|auto].
  destruct (moveRange q); [|auto].
  destruct (truthy sp); auto.
Qed.

Lemma tokens_moved ps : tokens (map movePlatform ps) = tokens ps.
Proof.
  induction ps as [|q ps IH]; [reflexivity|].
  cbn [map]. rewrite (tokens_cons (movePlatform q)), (tokens_cons q), IH.
  rewrite !tokens_one. unfold hasToken.
  rewrite (proj1 (movePlatform_token q)). reflexivity.
Qed.

Lemma beforeScroll_platforms inp e :
  (tokens (platforms (beforeScroll inp e)) + pickups (beforeScroll inp e)
   = tokens (platforms e) + pickups e)%nat /\
  map py (platforms (beforeScroll inp e)) = map py (platforms e).
Proof.
  unfold beforeScroll, interactAll.
  destruct (interactFrom_tokens (clock inp)
              (platforms (integrated (keys inp) e)) O
              (integrated (keys inp) e)) as [H H'].
  destruct (interactFrom _ _ _ _) as [ps e1]. cbn [fst snd] in H, H'.
  cbn [platforms set_platforms].
  change (pickups (set_platforms ps e1)) with (pickups e1).
  rewrite H, H'. rewrite integrated_shape.
  cbn [platforms set_platforms].
  change (pickups (set_platforms (map movePlatform (platforms e))
             (set_player (moveVertically
                (moveHorizontally (keys inp) (player e))) e)))
    with (pickups e).
  rewrite tokens_moved. split; [reflexivity|].
  rewrite map_map. apply map_ext. intros q. apply movePlatform_token.
Qed.

Lemma updatePhysics_pickups inp e :
  pickups (updatePhysics inp e) = pickups (beforeScroll inp e).
Proof.
  unfold updatePhysics, beforeFallThrough, fallThrough, scroll.
  destruct (scrolls (beforeScroll inp e));
    match goal with |- context [fallsThrough ?a] => destruct (fallsThrough a) end;
    try reflexivity;
    match goal with |- context [(?a >? 0)%Z] => destruct (a >? 0)%Z end;
    reflexivity.
Qed.

(** X10: every token that leaves a platform in the platform loop of a step is
    one activation, and every activation takes one token: tokens on the
    platforms plus activations so far is the same before and after the
    loop.  So a token is collected once, and no power-up is activated
    without one. *)
Theorem tokens_are_collected_once inp e :
  (tokens (platforms (beforeScroll inp e)) + pickups (updatePhysics inp e)
   = tokens (platforms e) + pickups e)%nat /\
  (pickups e <= pickups (updatePhysics inp e))%nat /\
  (tokens (platforms (beforeScroll inp e)) <= tokens (platforms e))%nat.
Proof.
  rewrite updatePhysics_pickups.
  destruct (beforeScroll_platforms inp e) as [H _].
  assert (M : (pickups e <= pickups (beforeScroll inp e))%nat).
  { unfold beforeScroll.
    apply (interactAll_inv (fun e' => (pickups e <= pickups e')%nat)).
    - auto.
    - intros plat e0 H0 _. exact H0.
    - intros t now e0 H0. rewrite activatePowerUp_pickups. lia.
    - apply Nat.le_refl. }
  split; [exact H|]. split; [exact M|lia].
Qed.

(** ** Scrolling and the order of the platforms *)

Lemma scroll_platforms cs d e :
  scrolls e = true ->
  let diff := CANVAS_HEIGHT / 2 - y (player e) in
  let moved := filter (fun q => Qltb (py q) CANVAS_HEIGHT)
                 (map (fun q => set_py (py q + diff) q) (platforms e)) in
  platforms (scroll cs d e) = moved \/
  exists lastPlat, lastOf moved = Some lastPlat /\ 70 < py lastPlat /\
                   platforms (scroll cs d e) = moved ++ [generate cs d lastPlat].
Proof.
  intros S diff moved. unfold scroll. rewrite S.
  cbn [platforms emit set_score set_platforms]. fold diff. fold moved.
  destruct (lastOf moved) as [l|] eqn:L; [|left; reflexivity].
  destruct (Qgtb (py l) 70) eqn:G; [|left; reflexivity].
  right. exists l. apply Qgtb_gt in G. auto.
Qed.

(** X12: a scroll is a translation: the player is put on the midline, and every
    platform that stays is moved down by the same amount, so its position
    relative to the player is unchanged; platforms that would end at or below
    the bottom of the world are dropped; nothing else is in the array but at
    most one generated platform, at its end. *)
Theorem scroll_translates cs d e :
  scrolls e = true ->
  let diff := CANVAS_HEIGHT / 2 - y (player e) in
  let e' := scroll cs d e in
  let moved := filter (fun q => Qltb (py q) CANVAS_HEIGHT)
                 (map (fun q => set_py (py q + diff) q) (platforms e)) in
  0 < diff /\
  y (player e') == CANVAS_HEIGHT / 2 /\
  (platforms e' = moved \/
   exists lastPlat, lastOf moved = Some lastPlat /\ 70 < py lastPlat /\
                    platforms e' = moved ++ [generate cs d lastPlat]) /\
  (forall q, In q (platforms e) ->
     py q + diff < CANVAS_HEIGHT ->
     exists q', In q' (platforms e') /\
                px q' = px q /\ pwidth q' = pwidth q /\
                py q' - y (player e') == py q - y (player e)) /\
  (forall q', In q' moved -> py q' < CANVAS_HEIGHT).
Proof.
  intros S diff e' moved.
  assert (D : 0 < diff) by (apply scrolls_diff, S).
  split; [exact D|].
  assert (E : platforms e' = moved \/
              exists lastPlat, lastOf moved = Some lastPlat /\ 70 < py lastPlat /\
                platforms e' = moved ++ [generate cs d lastPlat])
    by (apply scroll_platforms, S).
  assert (Y : y (player e') = CANVAS_HEIGHT / 2)
    by (subst e'; unfold scroll; rewrite S; reflexivity).
  split; [rewrite Y; reflexivity|]. split; [exact E|]. split.
  - intros q I B. exists (set_py (py q + diff) q).
    assert (M : In (set_py (py q + diff) q) moved).
    { subst moved. apply filter_In. split.
      - apply in_map_iff. exists q. auto.
      - apply Qltb_lt. exact B. }
    split.
    + destruct E as [E|(l & _ & _ & E)]; rewrite E;
        [exact M|apply in_or_app; left; exact M].
    + split; [reflexivity|]. split; [reflexivity|].
      rewrite Y. cbn [py set_py]. subst diff. ring.
  - intros q' I. subst moved. apply filter_In in I as [_ I].
    apply Qltb_lt, I.
Qed.

Lemma scroll_translates_witness :
  scrolls (beforeScroll idle climbing) = true /\
  y (player (scroll 2600 plainDraws (beforeScroll idle climbing)))
  == CANVAS_HEIGHT / 2.
Proof.
  assert (H : scrolls (beforeScroll idle climbing) = true)
    by (vm_compute; reflexivity).
  split; [exact H|].
  exact (proj1 (proj2 (scroll_translates 2600 plainDraws _ H))).
Defined.
















(** ** Input *)

(** X20: a touch holds exactly one of the two arrow keys, the left one iff the
    touch is in the left half of the canvas, and then steers the player
    that way; lifting the finger releases both, and the speed only decays.
    The letter keys are not touched. *)
Theorem touch_steers touchX rectLeft rectWidth k p :
  KeyA k = false -> KeyD k = false ->
  let k' := handleTouchStart touchX rectLeft rectWidth k in
  ArrowLeft k' = Qltb (touchX - rectLeft) (rectWidth / 2) /\
  ArrowRight k' = negb (ArrowLeft k') /\
  KeyA k' = false /\ KeyD k' = false /\
  vx (steer k' p)
  == (if ArrowLeft k' then vx p - moveSpeed p else vx p + moveSpeed p)
     * FRICTION /\
  vx (steer (handleTouchEnd k') p) == vx p * FRICTION.
Proof.
  intros A D k'. subst k'. unfold handleTouchStart, handleTouchEnd.
  destruct (Qltb (touchX - rectLeft) (rectWidth / 2));
    cbn [setKey String.eqb Ascii.eqb Bool.eqb ArrowLeft KeyA ArrowRight KeyD];
    rewrite A, D; unfold steer;
    cbn [ArrowLeft KeyA ArrowRight KeyD orb negb vx moveSpeed set_vx set_x];
    repeat split; reflexivity.
Qed.

Lemma touch_steers_witness :
  KeyA noKeys = false /\ KeyD noKeys = false /\
  ArrowLeft (handleTouchStart 100 20 300 noKeys) = true /\
  vx (steer (handleTouchStart 100 20 300 noKeys) (player freshRound))
  == (vx (player freshRound) - moveSpeed (player freshRound)) * FRICTION.
Proof.
  assert (A : KeyA noKeys = false) by reflexivity.
  assert (D : KeyD noKeys = false) by reflexivity.
  split; [exact A|]. split; [exact D|].
  destruct (touch_steers 100 20 300 noKeys (player freshRound) A D)
    as (L & _ & _ & _ & S & _).
  split; [rewrite L; vm_compute; reflexivity|].
  assert (T : ArrowLeft (handleTouchStart 100 20 300 noKeys) = true)
    by (vm_compute; reflexivity).
  rewrite T in S. exact S.
Defined.

(** ** The score shown by the host *)









(** ** The new-record test of the host *)

Lemma filter_shorter {A} (f : A -> bool) (l : list A) :
  (List.length (filter f l) < List.length l)%nat <->
  exists x, In x l /\ f x = false.
Proof.
  induction l as [|a l IH]; cbn [filter List.length In].
  - split; [lia|intros (x & [] & _)].
  - assert (L := filter_length_le f l).
    destruct (f a) eqn:E; cbn [List.length].
    + split.
      * intros H. apply PeanoNat.lt_S_n in H. apply IH in H.
        destruct H as (x & I & F). exists x. auto.
      * intros (x & [->|I] & F); [congruence|].
        apply (proj1 (Nat.succ_lt_mono _ _)). apply IH. exists x. auto.
    + split; [intros _; exists a; auto|intros _; lia].
Qed.

Lemma lowest_in (board : list LeaderboardEntry) :
  board <> [] ->
  exists en, In en board /\
    entryScore en = nth (List.length board - 1) (map entryScore board) 0%Z.
Proof.
  intros N.
  assert (I : In (nth (List.length board - 1) (map entryScore board) 0%Z)
                 (map entryScore board)).
  { apply nth_In. rewrite length_map. destruct board; [congruence|].
    cbn [List.length]. lia. }
  apply in_map_iff in I. destruct I as (en & E & I). exists en. auto.
Qed.

Lemma lowest_of_sorted (board : list LeaderboardEntry) en :
  StronglySorted (fun a b => (entryScore b <= entryScore a)%Z) board ->
  In en board ->
  (nth (List.length board - 1) (map entryScore board) 0%Z <= entryScore en)%Z.
Proof.
  induction 1 as [|a l S IH F]; intros I; [destruct I|].
  destruct l as [|b l'].
  - destruct I as [->|[]]. cbn. lia.
  - replace (nth (List.length (a :: b :: l') - 1)
               (map entryScore (a :: b :: l')) 0%Z)
      with (nth (List.length (b :: l') - 1) (map entryScore (b :: l')) 0%Z).
    2:{ cbn [List.length map]. rewrite !Nat.sub_succ, !Nat.sub_0_r.
        reflexivity. }
    destruct I as [->|I]; [|apply IH; exact I].
    destruct (lowest_in (b :: l')) as (m & M & <-); [discriminate|].
    rewrite Forall_forall in F. apply F. exact M.
Qed.

(** X22: on the board the host fetches (at most 20 entries, highest score
    first), a finished round opens the new-record form exactly when its
    score is positive and fewer than 20 entries score at least as much:
    the score would be among the best 20, and a tie with the lowest entry
    of a full board does not count. *)
Theorem new_record_iff_in_top_20 s board :
  StronglySorted (fun a b => (entryScore b <= entryScore a)%Z) board ->
  (List.length board <= MAX_LEADERBOARD_ENTRIES)%nat ->
  isNewRecord s board = true <->
  (0 < s)%Z /\
  (List.length (filter (fun en => (s <=? entryScore en)%Z) board)
   < MAX_LEADERBOARD_ENTRIES)%nat.
Proof.
  intros S L. unfold isNewRecord.
  rewrite andb_true_iff, orb_true_iff, Z.gtb_gt.
  assert (FL := filter_length_le (fun en => (s <=? entryScore en)%Z) board).
  destruct (Nat.ltb_spec (List.length board) MAX_LEADERBOARD_ENTRIES) as [Lt|Ge].
  - split; intros [P _]; (split; [lia|]); [lia|left; reflexivity].
  - assert (E : List.length board = MAX_LEADERBOARD_ENTRIES) by lia.
    rewrite Z.gtb_gt.
    split; intros [P Q]; (split; [lia|]).
    + destruct Q as [Q|Q]; [discriminate|].
      rewrite <- E. apply filter_shorter.
      destruct (lowest_in board) as (m & M & EM).
      { intros ->. discriminate E. }
      exists m. split; [exact M|]. apply Z.leb_gt. lia.
    + right. rewrite <- E in Q. apply filter_shorter in Q.
      destruct Q as (m & M & F). apply Z.leb_gt in F.
      pose proof (lowest_of_sorted board m S M). lia.
Qed.

Lemma new_record_iff_in_top_20_witness :
  StronglySorted (fun a b => (entryScore b <= entryScore a)%Z)
    [mkEntry "ann" 90 YELLOW 2; mkEntry "bob" 40 BLUE 1] /\
  (List.length [mkEntry "ann" 90 YELLOW 2; mkEntry "bob" 40 BLUE 1]
   <= MAX_LEADERBOARD_ENTRIES)%nat /\
  (isNewRecord 12 [mkEntry "ann" 90 YELLOW 2; mkEntry "bob" 40 BLUE 1] = true <->
   (0 < 12)%Z /\
   (List.length (filter (fun en => (12 <=? entryScore en)%Z)
                   [mkEntry "ann" 90 YELLOW 2; mkEntry "bob" 40 BLUE 1])
    < MAX_LEADERBOARD_ENTRIES)%nat).
Proof.
  assert (S : StronglySorted (fun a b => (entryScore b <= entryScore a)%Z)
                [mkEntry "ann" 90 YELLOW 2; mkEntry "bob" 40 BLUE 1]).
  { repeat constructor; cbn; lia. }
  assert (L : (List.length [mkEntry "ann" 90 YELLOW 2; mkEntry "bob" 40 BLUE 1]
               <= MAX_LEADERBOARD_ENTRIES)%nat) by (vm_compute; lia).
  split; [exact S|]. split; [exact L|].
  exact (new_record_iff_in_top_20 12 _ S L).
Defined.
